(** * CleverDict: a dictionary with attribute access and key aliases

    Shallow embedding of [cleverdict/cleverdict.py] (version 1.5.1) and
    the properties of its alias engine.

    Modelling conventions.
    - Python values that occur as keys, aliases and stored values are the
      scalars [int], [bool], [str] and [None].  Text is a [string] whose
      characters are code points below 256.  The alias deriver is also
      given on complex numbers, which it accepts as an argument.
    - A Python [dict] is an association list in insertion order; a lookup
      compares with Python's [==].  Assigning to a key that is present
      keeps the stored key object and its position.
    - [CleverDict.expand] is a class attribute shared by all instances; it
      is a component of the state threaded through every method.
    - A raised exception leaves the mutations made before it in place, so
      a computation returns an outcome together with the state. *)

From Stdlib Require Import ZArith List String Ascii Bool Lia DecimalString PeanoNat.
From Stdlib Require DecimalFacts DecimalPos.
Import ListNotations.
Local Open Scope string_scope.
Local Open Scope Z_scope.

(** ** Python scalars *)

Inductive PyVal : Type :=
| VInt (z : Z)
| VBool (b : bool)
| VStr (s : string)
| VNone.

(** Numeric interpretation: [bool] is a subclass of [int]. *)
Definition py_num (v : PyVal) : option Z :=
  match v with
  | VInt z => Some z
  | VBool b => Some (Z.b2z b)
  | _ => None
  end.

(** Python's [a == b] on scalars. *)
Definition py_eq (a b : PyVal) : bool :=
  match py_num a, py_num b with
  | Some x, Some y => x =? y
  | Some _, None | None, Some _ => false
  | None, None =>
      match a, b with
      | VStr s, VStr t => String.eqb s t
      | VNone, VNone => true
      | _, _ => false
      end
  end.

(** [x in seq] for a tuple or list of scalars. *)
Definition py_in (x : PyVal) (l : list PyVal) : bool :=
  existsb (fun y => py_eq y x) l.

(** [int(name)] on a number.  It is only evaluated under the guard
    [name == hash(name)], which no [str] and not [None] passes. *)
Definition py_int (v : PyVal) : Z :=
  match py_num v with Some z => z | None => 0 end.

(** [bool(name)]: truth value. *)
Definition py_bool (v : PyVal) : bool :=
  match v with
  | VInt z => negb (z =? 0)
  | VBool b => b
  | VStr s => negb (String.eqb s "")
  | VNone => false
  end.

Definition str_int (z : Z) : string := NilZero.string_of_int (Z.to_int z).

Definition str_bool (b : bool) : string := if b then "True" else "False".

(** [str(name)]. *)
Definition py_str (v : PyVal) : string :=
  match v with
  | VInt z => str_int z
  | VBool b => str_bool b
  | VStr s => s
  | VNone => "None"
  end.

(** CPython's hash of an [int] on a 64-bit build: reduction modulo the
    Mersenne prime 2^61 - 1 with the sign kept, and -1 (the error code of
    the C hash slot) replaced by -2. *)
Definition PyHASH_MODULUS : Z := 2 ^ 61 - 1.

Definition int_hash (z : Z) : Z :=
  let h := Z.sgn z * (Z.abs z mod PyHASH_MODULUS) in
  if h =? -1 then -2 else h.

(** [name == hash(name)].  [hash] returns an [int]; a [str] or [None] is
    never equal to one, whatever its hash is. *)
Definition eq_own_hash (name : PyVal) : bool :=
  match py_num name with
  | Some z => z =? int_hash z
  | None => false
  end.

(** ** Text predicates *)

Definition code (c : ascii) : nat := nat_of_ascii c.

Definition between (lo hi : nat) (c : ascii) : bool :=
  (Nat.leb lo (code c) && Nat.leb (code c) hi)%bool.

(** Characters that may start an identifier: XID_Start or the underscore. *)
Definition is_identifier_start (c : ascii) : bool :=
  (between 65 90 c || between 97 122 c || Nat.eqb (code c) 95
   || Nat.eqb (code c) 170 || Nat.eqb (code c) 181 || Nat.eqb (code c) 186
   || between 192 214 c || between 216 246 c || between 248 255 c)%bool.

(** Characters that may continue an identifier: XID_Continue. *)
Definition is_identifier_continue (c : ascii) : bool :=
  (is_identifier_start c || between 48 57 c || Nat.eqb (code c) 183)%bool.

(** [ch.isdigit()] for a single character. *)
Definition char_isdigit (c : ascii) : bool :=
  (between 48 57 c || Nat.eqb (code c) 178 || Nat.eqb (code c) 179
   || Nat.eqb (code c) 185)%bool.

Fixpoint string_forallb (p : ascii -> bool) (s : string) : bool :=
  match s with
  | EmptyString => true
  | String c r => (p c && string_forallb p r)%bool
  end.

(** [s.isidentifier()]. *)
Definition isidentifier (s : string) : bool :=
  match s with
  | EmptyString => false
  | String c r => (is_identifier_start c && string_forallb is_identifier_continue r)%bool
  end.

(** [keyword.kwlist]. *)
Definition kwlist : list string :=
  ["False"; "None"; "True"; "and"; "as"; "assert"; "async"; "await";
   "break"; "class"; "continue"; "def"; "del"; "elif"; "else"; "except";
   "finally"; "for"; "from"; "global"; "if"; "import"; "in"; "is";
   "lambda"; "nonlocal"; "not"; "or"; "pass"; "raise"; "return"; "try";
   "while"; "with"; "yield"].

Definition iskeyword (s : string) : bool :=
  existsb (String.eqb s) kwlist.

(** [name[0].isdigit()], evaluated only on a non-empty [name]. *)
Definition first_isdigit (s : string) : bool :=
  match s with
  | EmptyString => false
  | String c _ => char_isdigit c
  end.

(** ** The alias deriver *)

(** The generator
    [ch if ("A"[:i] + ch).isidentifier() else "_" for i, ch in enumerate(s)],
    joined; [i] is the index of the first character of [s]. *)
Fixpoint replace_illegal (i : nat) (s : string) : string :=
  match s with
  | EmptyString => EmptyString
  | String ch r =>
      String (if isidentifier (substring 0 i "A" ++ String ch EmptyString)
              then ch else "_"%char)
             (replace_illegal (S i) r)
  end.

Definition norm_name_of (name : string) : string :=
  let norm_name :=
    if (String.eqb name "" || first_isdigit name || iskeyword name)%bool
    then "_" ++ name
    else name in
  replace_illegal 0 norm_name.

(** [result.append(x)]. *)
Definition list_append {A : Type} (result : list A) (x : A) : list A :=
  (result ++ [x])%list.

Definition name_to_aliases (expand : bool) (name : PyVal) : list PyVal :=
  let result := [name] in
  if expand then
    if eq_own_hash name then
      let result := list_append result (VStr ("_" ++ str_int (py_int name))) in
      if py_in name [VInt 0; VInt 1]
      then list_append result (VStr ("_" ++ str_bool (py_bool name)))
      else result
    else
      let converted := negb (py_eq name (VStr (py_str name))) in
      (* from here on [name] is the text [str(name)] *)
      let name := py_str name in
      let result :=
        if (converted && isidentifier name && negb (iskeyword name))%bool
        then list_append result (VStr name)
        else result in
      let norm_name := norm_name_of name in
      if negb (String.eqb name norm_name)
      then list_append result (VStr norm_name)
      else result
  else result.

(** ** Keys that are no scalars *)

(** [name_to_aliases] accepts any hashable object.  Besides the scalars,
    a complex number [complex(re, im)] whose two parts are integers of
    absolute value below 2^53, which the floats of the parts hold
    exactly. *)
Inductive PyObject : Type :=
| OScalar (v : PyVal)
| OComplex (re im : Z).

(** A C [Py_uhash_t] read as the signed [Py_hash_t] of a 64-bit build. *)
Definition as_Py_hash_t (u : Z) : Z :=
  let r := u mod 2 ^ 64 in
  if r <? 2 ^ 63 then r else r - 2 ^ 64.

Definition _PyHASH_IMAG : Z := 1000003.

(** CPython's hash of a complex number.  The hash of a float with an
    integral value is the hash of the [int] of that value; the hashes of
    the two parts are combined in unsigned arithmetic, and -1 is replaced
    by -2. *)
Definition complex_hash (re im : Z) : Z :=
  let combined := as_Py_hash_t (int_hash re + _PyHASH_IMAG * int_hash im) in
  if combined =? -1 then -2 else combined.

(** [c == n] for a complex number and an [int]. *)
Definition complex_eq_int (re im n : Z) : bool :=
  ((im =? 0) && (re =? n))%bool.

(** [name == hash(name)]. *)
Definition object_eq_own_hash (name : PyObject) : bool :=
  match name with
  | OScalar v => eq_own_hash v
  | OComplex re im => complex_eq_int re im (complex_hash re im)
  end.

(** [int(name)]; [None] stands for the TypeError that [int] raises for a
    complex number. *)
Definition object_int (name : PyObject) : option Z :=
  match name with
  | OScalar v => Some (py_int v)
  | OComplex _ _ => None
  end.

(** [name in (0, 1)]. *)
Definition object_in_0_1 (name : PyObject) : bool :=
  match name with
  | OScalar v => py_in v [VInt 0; VInt 1]
  | OComplex re im => (complex_eq_int re im 0 || complex_eq_int re im 1)%bool
  end.

(** [bool(name)]. *)
Definition object_bool (name : PyObject) : bool :=
  match name with
  | OScalar v => py_bool v
  | OComplex re im => negb ((re =? 0) && (im =? 0))
  end.

(** [str(name)].  A complex number is written [(re+imj)], the sign of the
    imaginary part included, without the parentheses and the real part
    when the real part is zero. *)
Definition object_str (name : PyObject) : string :=
  match name with
  | OScalar v => py_str v
  | OComplex re im =>
      if re =? 0 then str_int im ++ "j"
      else "(" ++ str_int re ++ (if 0 <=? im then "+" else "")
               ++ str_int im ++ "j)"
  end.

(** [name != str(name)]: a complex number is never equal to a text. *)
Definition object_differs_from_own_str (name : PyObject) : bool :=
  match name with
  | OScalar v => negb (py_eq v (VStr (py_str v)))
  | OComplex _ _ => true
  end.

(** [name_to_aliases] on these objects; [None] stands for the TypeError
    of [int(name)], which leaves the function. *)
Definition object_name_to_aliases (expand : bool) (name : PyObject)
  : option (list PyObject) :=
  let result := [name] in
  if expand then
    if object_eq_own_hash name then
      match object_int name with
      | None => None
      | Some i =>
          let result := list_append result (OScalar (VStr ("_" ++ str_int i))) in
          if object_in_0_1 name
          then Some (list_append result
                       (OScalar (VStr ("_" ++ str_bool (object_bool name)))))
          else Some result
      end
    else
      let converted := object_differs_from_own_str name in
      let name := object_str name in
      let result :=
        if (converted && isidentifier name && negb (iskeyword name))%bool
        then list_append result (OScalar (VStr name))
        else result in
      let norm_name := norm_name_of name in
      if negb (String.eqb name norm_name)
      then Some (list_append result (OScalar (VStr norm_name)))
      else Some result
  else Some result.

(** ** Python dictionaries *)

(** Key comparison used by a dictionary lookup. *)
Class PyKey (K : Type) := key_eq : K -> K -> bool.

#[global] Instance PyKey_PyVal : PyKey PyVal := py_eq.
#[global] Instance PyKey_str : PyKey string := String.eqb.

Section Dict.
Context {K V : Type} `{PyKey K}.

Definition dict : Type := list (K * V).

(** [d[k]], [None] standing for the KeyError of a missing key. *)
Fixpoint dict_get (d : dict) (k : K) : option V :=
  match d with
  | [] => None
  | (k', v) :: d' => if key_eq k' k then Some v else dict_get d' k
  end.

(** [k in d]. *)
Definition dict_contains (d : dict) (k : K) : bool :=
  match dict_get d k with Some _ => true | None => false end.

(** [d[k] = v]: a present key keeps its slot and its key object, a new
    key goes to the end. *)
Fixpoint dict_set (d : dict) (k : K) (v : V) : dict :=
  match d with
  | [] => [(k, v)]
  | (k', v') :: d' =>
      if key_eq k' k then (k', v) :: d' else (k', v') :: dict_set d' k v
  end.

(** [del d[k]], [None] standing for the KeyError of a missing key. *)
Fixpoint dict_del (d : dict) (k : K) : option dict :=
  match d with
  | [] => None
  | (k', v') :: d' =>
      if key_eq k' k then Some d'
      else match dict_del d' k with
           | Some d'' => Some ((k', v') :: d'')
           | None => None
           end
  end.

(** [list(d.keys())]. *)
Definition dict_keys (d : dict) : list K := map fst d.

(** [a == b] for two dictionaries whose values are compared by [veq]:
    equal sizes and every item of [a] found in [b]. *)
Definition dict_eqb (veq : V -> V -> bool) (a b : dict) : bool :=
  (Nat.eqb (List.length a) (List.length b)
   && forallb (fun kv => match dict_get b (fst kv) with
                         | Some v => veq (snd kv) v
                         | None => false
                         end) a)%bool.
End Dict.

Arguments dict : clear implicits.

(** ** The container *)

(** What an instance attribute holds: the alias index is a dictionary,
    caller-defined attributes are scalars. *)
Inductive AttrVal : Type :=
| ADict (d : dict PyVal PyVal)
| AVal (v : PyVal).

(** A [CleverDict] object: the inherited [dict] storage and the instance
    dictionary [vars(self)]. *)
Record CleverDict : Type := mkCleverDict {
  items : dict PyVal PyVal;
  vars : dict string AttrVal
}.

(** The formatted texts of the errors the module raises; a [repr] inside
    a text is kept as the value it renders. *)
Inductive Message : Type :=
| MsgKey (k : PyVal)
| MsgAlreadyAlias (alias target : PyVal)
| MsgNotPresent (al : PyVal)
| MsgKeyElement (al : PyVal).

Inductive Exn : Type :=
| KeyError (m : Message)
| AttributeError (m : Message)
| Unmodelled.

Inductive Outcome (A : Type) : Type :=
| Ok (a : A)
| Raise (e : Exn).
Arguments Ok {A} a.
Arguments Raise {A} e.

(** The state a method runs in: the class attribute [CleverDict.expand]
    and the instance [self]. *)
Record World : Type := mkWorld {
  CleverDict_expand : bool;
  self : CleverDict
}.

Definition M (A : Type) : Type := World -> Outcome A * World.

Definition ret {A : Type} (a : A) : M A := fun w => (Ok a, w).

Definition bind {A B : Type} (m : M A) (f : A -> M B) : M B :=
  fun w => match m w with
           | (Ok a, w') => f a w'
           | (Raise e, w') => (Raise e, w')
           end.

Definition raise {A : Type} (e : Exn) : M A := fun w => (Raise e, w).

Declare Scope py_scope.
Delimit Scope py_scope with py.
Notation "x <- m ;; k" := (bind m (fun x => k))
  (at level 61, m at next level, right associativity) : py_scope.
Notation "m ;; k" := (bind m (fun _ => k))
  (at level 61, right associativity) : py_scope.
Local Open Scope py_scope.

(** [for x in l: body(x)]. *)
Fixpoint for_each {A : Type} (l : list A) (body : A -> M unit) : M unit :=
  match l with
  | [] => ret tt
  | x :: l' => body x ;; for_each l' body
  end.

(** [try: body finally: cleanup], for a cleanup that cannot fail. *)
Definition try_finally {A : Type} (body : M A) (cleanup : World -> World) : M A :=
  fun w => let (r, w') := body w in (r, cleanup w').

Definition read_expand : M bool := fun w => (Ok (CleverDict_expand w), w).

Definition write_expand (b : bool) : World -> World :=
  fun w => mkWorld b (self w).

Definition read_items : M (dict PyVal PyVal) := fun w => (Ok (items (self w)), w).

Definition write_items (d : dict PyVal PyVal) : M unit :=
  fun w => (Ok tt, mkWorld (CleverDict_expand w) (mkCleverDict d (vars (self w)))).

(** ** class expand *)

(** [__enter__]: the result is the value kept in [self.save_expand]. *)
Definition expand__enter__ (ok : bool) : M bool :=
  fun w => (Ok (CleverDict_expand w), write_expand ok w).

Definition expand__exit__ (save_expand : bool) : World -> World :=
  write_expand save_expand.

(** [with expand(ok): body].  [__exit__] returns [None], so an exception
    of the body propagates after the flag is restored. *)
Definition with_expand {A : Type} (ok : bool) (body : M A) : M A :=
  save_expand <- expand__enter__ ok ;;
  try_finally body (expand__exit__ save_expand).

(** ** class CleverDict *)

(** [setattr_direct]: [object.__setattr__] writes the instance dictionary. *)
Definition setattr_direct (name : string) (value : AttrVal) : M unit :=
  fun w => (Ok tt, mkWorld (CleverDict_expand w)
                     (mkCleverDict (items (self w)) (dict_set (vars (self w)) name value))).

(** Reading [self._aliases].  The attribute is found in the instance
    dictionary.  An object without it, or with a scalar bound to it, is
    not modelled further. *)
Definition read_aliases : M (dict PyVal PyVal) :=
  fun w => match dict_get (vars (self w)) "_aliases" with
           | Some (ADict d) => (Ok d, w)
           | _ => (Raise Unmodelled, w)
           end.

(** The alias index is mutated in place: the instance dictionary keeps
    pointing to it. *)
Definition write_aliases (d : dict PyVal PyVal) : M unit :=
  setattr_direct "_aliases" (ADict d).

(** [save]: the default observer does nothing. *)
Definition save (name value : PyVal) : M unit := ret tt.

Definition _add_alias (name alias : PyVal) : M unit :=
  al <- read_aliases ;;
  match dict_get al alias with
  | Some target =>
      if negb (py_eq target name)
      then raise (KeyError (MsgAlreadyAlias alias target))
      else write_aliases (dict_set al alias name)
  | None => write_aliases (dict_set al alias name)
  end.

Definition super__setitem__ (name value : PyVal) : M unit :=
  its <- read_items ;; write_items (dict_set its name value).

Definition super__getitem__ (name : PyVal) : M PyVal :=
  its <- read_items ;;
  match dict_get its name with
  | Some v => ret v
  | None => raise (KeyError (MsgKey name))
  end.

Definition super__delitem__ (key : PyVal) : M unit :=
  its <- read_items ;;
  match dict_del its key with
  | Some its' => write_items its'
  | None => raise (KeyError (MsgKey key))
  end.

Definition __setattr__ (name value : PyVal) : M unit :=
  al <- read_aliases ;;
  name <- match dict_get al name with
          | Some key => ret key
          | None =>
              its <- read_items ;;
              if negb (dict_contains its name)
              then expand <- read_expand ;;
                   for_each (name_to_aliases expand name)
                            (fun al => _add_alias name al) ;;
                   ret name
              else ret name
          end ;;
  super__setitem__ name value ;;
  save name value.

Definition __setitem__ : PyVal -> PyVal -> M unit := __setattr__.

Definition get_key (name : PyVal) : M PyVal :=
  al <- read_aliases ;;
  match dict_get al name with
  | Some key => ret key
  | None => raise (KeyError (MsgKey name))
  end.

Definition __getitem__ (name : PyVal) : M PyVal :=
  name <- get_key name ;;
  super__getitem__ name.

(** [try: body except KeyError as e: raise AttributeError(e)]. *)
Definition key_error_as_attribute_error {A : Type} (body : M A) : M A :=
  fun w => match body w with
           | (Raise (KeyError m), w') => (Raise (AttributeError m), w')
           | r => r
           end.

Definition __getattr__ (name : PyVal) : M PyVal :=
  key_error_as_attribute_error (__getitem__ name).

(** [del self._aliases[ak]]. *)
Definition del_alias (ak : PyVal) : M unit :=
  al <- read_aliases ;;
  match dict_del al ak with
  | Some al' => write_aliases al'
  | None => raise (KeyError (MsgKey ak))
  end.

Definition __delitem__ (key : PyVal) : M unit :=
  key <- get_key key ;;
  super__delitem__ key ;;
  al <- read_aliases ;;
  for_each al (fun '(ak, av) => if py_eq av key then del_alias ak else ret tt).

Definition __delattr__ (k : PyVal) : M unit :=
  key_error_as_attribute_error (__delitem__ k).

(** The [alias] argument of [add_alias] and [delete_alias]: a scalar (a
    text counts as one) or an iterable of scalars. *)
Inductive AliasArg : Type :=
| Scalar (alias : PyVal)
| Several (aliases : list PyVal).

Definition alias_list (alias : AliasArg) : list PyVal :=
  match alias with
  | Scalar a => [a]
  | Several l => l
  end.

Definition add_alias (name : PyVal) (alias : AliasArg) : M unit :=
  key <- get_key name ;;
  for_each (alias_list alias) (fun al =>
    expand <- read_expand ;;
    for_each (name_to_aliases expand al) (fun name => _add_alias key name)).

Definition delete_alias (alias : AliasArg) : M unit :=
  for_each (alias_list alias) (fun al =>
    aliases <- read_aliases ;;
    if negb (dict_contains aliases al) then raise (KeyError (MsgNotPresent al))
    else
      its <- read_items ;;
      if dict_contains its al then raise (KeyError (MsgKeyElement al))
      else
        del_alias al ;;
        expand <- read_expand ;;
        for_each (name_to_aliases expand al) (fun alx =>
          aliases <- read_aliases ;;
          if py_in alx (tl (dict_keys aliases)) then del_alias alx else ret tt)).

(** [itertools.chain(_mapping, kwargs.items())]: the pairs of [_mapping]
    followed by the keyword arguments, whose names are texts. *)
Definition chain (_mapping : list (PyVal * PyVal)) (kwargs : list (string * PyVal))
  : list (PyVal * PyVal) :=
  (_mapping ++ map (fun kv => (VStr (fst kv), snd kv)) kwargs)%list.

Definition update (_mapping : list (PyVal * PyVal)) (kwargs : list (string * PyVal)) : M unit :=
  for_each (chain _mapping kwargs) (fun '(k, v) => __setitem__ k v).

(** [__init__], run on the fresh instance. *)
Definition __init__ (_mapping : list (PyVal * PyVal))
    (_aliases : option (dict PyVal PyVal))
    (_vars : dict string AttrVal)
    (kwargs : list (string * PyVal)) : M unit :=
  setattr_direct "_aliases" (ADict []) ;;
  current <- read_expand ;;
  with_expand (match _aliases with None => current | Some _ => false end)
    (update _mapping kwargs ;;
     match _aliases with
     | Some decl => for_each decl (fun '(k, v) => _add_alias v k)
     | None => ret tt
     end ;;
     for_each _vars (fun '(k, v) => setattr_direct k v)).

(** A new object before [__init__] runs. *)
Definition fresh : CleverDict := mkCleverDict [] [].

(** [CleverDict(_mapping, _aliases, _vars, **kwargs)] evaluated while the
    class attribute is [flag]: the outcome and the class attribute
    afterwards. *)
Definition CleverDict_new (flag : bool) (_mapping : list (PyVal * PyVal))
    (_aliases : option (dict PyVal PyVal))
    (_vars : dict string AttrVal)
    (kwargs : list (string * PyVal)) : Outcome CleverDict * bool :=
  match __init__ _mapping _aliases _vars kwargs (mkWorld flag fresh) with
  | (Ok _, w) => (Ok (self w), CleverDict_expand w)
  | (Raise e, w) => (Raise e, CleverDict_expand w)
  end.

(** [==] on attribute values: two dictionaries, or two scalars. *)
Definition attr_eqb (a b : AttrVal) : bool :=
  match a, b with
  | ADict d1, ADict d2 => dict_eqb py_eq d1 d2
  | AVal v1, AVal v2 => py_eq v1 v2
  | _, _ => false
  end.

(** [__eq__] for [other] a [CleverDict]. *)
Definition __eq__ (self other : CleverDict) : bool :=
  (dict_eqb py_eq (items self) (items other)
   && dict_eqb attr_eqb (vars self) (vars other))%bool.

(** The comprehension
    [[ak for ak, av in self._aliases.items() if av == self.get_key(name)]]:
    [get_key] is called for every item, so an unknown [name] raises at
    the first item and not at all on an empty index. *)
Fixpoint aliases_matching (name : PyVal) (l : list (PyVal * PyVal)) : M (list PyVal) :=
  match l with
  | [] => ret []
  | (ak, av) :: l' =>
      key <- get_key name ;;
      rest <- aliases_matching name l' ;;
      ret (if py_eq av key then ak :: rest else rest)
  end.

(** [get_aliases]: [None] stands for the omitted argument. *)
Definition get_aliases (name : option PyVal) : M (list PyVal) :=
  al <- read_aliases ;;
  match name with
  | None => ret (dict_keys al)
  | Some name => aliases_matching name al
  end.

(** The comprehension [{k: value for k in keys}]. *)
Definition dict_comprehension (keys : list PyVal) (value : PyVal) : dict PyVal PyVal :=
  fold_left (fun d k => dict_set d k value) keys [].

(** [fromkeys], evaluated while the class attribute is [flag]. *)
Definition fromkeys (flag : bool) (keys : list PyVal) (value : PyVal)
  : Outcome CleverDict * bool :=
  CleverDict_new flag (dict_comprehension keys value) None [] [].

(** The three arguments that [__repr__] renders inside
    [CleverDict(..., _aliases=..., _vars=...)]: the items, the aliases
    that are not keys, and the instance attributes other than the alias
    index.  The rendering into text is not modelled. *)
Definition __repr__args
  : M (dict PyVal PyVal * dict PyVal PyVal * dict string AttrVal) :=
  _mapping <- read_items ;;
  al <- read_aliases ;;
  fun w =>
    (Ok (_mapping,
         filter (fun kv => negb (dict_contains (items (self w)) (fst kv))) al,
         filter (fun kv => negb (String.eqb (fst kv) "_aliases")) (vars (self w))),
     w).

(** ** Definitions used to state the properties *)

(** A Python dictionary never holds two equal keys. *)
Fixpoint dict_wf {K V : Type} `{PyKey K} (d : dict K V) : bool :=
  match d with
  | [] => true
  | (k, _) :: d' => (negb (dict_contains d' k) && dict_wf d')%bool
  end.

(** Two dictionaries hold the same keys with equal values. *)
Definition dict_same {K V : Type} `{PyKey K} (veq : V -> V -> bool)
    (a b : dict K V) : Prop :=
  forall k,
    match dict_get a k, dict_get b k with
    | Some x, Some y => veq x y = true
    | None, None => True
    | _, _ => False
    end.

(** The alias index of an object, when its [_aliases] attribute is one. *)
Definition aliases_of (c : CleverDict) : option (dict PyVal PyVal) :=
  match dict_get (vars c) "_aliases" with
  | Some (ADict d) => Some d
  | _ => None
  end.

(** The instance dictionary without the alias index: the direct
    attributes set by the caller. *)
Definition direct_attributes (c : CleverDict) : dict string AttrVal :=
  filter (fun kv => negb (String.eqb (fst kv) "_aliases")) (vars c).

(** Invariant I1: every key of the entry store is an alias of itself. *)
Definition I1 (c : CleverDict) : Prop :=
  exists al, aliases_of c = Some al /\
    forall k, dict_contains (items c) k = true ->
      exists t, dict_get al k = Some t /\ py_eq t k = true.

(** The executable form of I1. *)
Definition I1b (c : CleverDict) : bool :=
  match aliases_of c with
  | Some al =>
      forallb (fun k => match dict_get al k with
                        | Some t => py_eq t k
                        | None => false
                        end) (dict_keys (items c))
  | None => false
  end.

(** The normalized identifier form as the specification words it: the
    prefix rule, then every character that is illegal at its position
    replaced by an underscore. *)
Definition needs_prefix (s : string) : bool :=
  match s with
  | EmptyString => true
  | String c _ => (char_isdigit c || iskeyword s)%bool
  end.

Fixpoint string_map (f : ascii -> ascii) (s : string) : string :=
  match s with
  | EmptyString => EmptyString
  | String c r => String (f c) (string_map f r)
  end.

Definition legal_or_underscore (legal : ascii -> bool) (c : ascii) : ascii :=
  if legal c then c else "_"%char.

Definition normalized_identifier_form (s : string) : string :=
  match (if needs_prefix s then String "_" s else s) with
  | EmptyString => EmptyString
  | String c r =>
      String (legal_or_underscore is_identifier_start c)
             (string_map (legal_or_underscore is_identifier_continue) r)
  end.

(** The keys that compare equal share one representative. *)
Definition canon (v : PyVal) : PyVal :=
  match v with
  | VBool b => VInt (Z.b2z b)
  | _ => v
  end.

(** Registering the aliases [l] for [key] one after the other, as the
    loops over [_add_alias] do: the first alias found registered for
    another key stops the loop, the aliases before it stay registered. *)
Fixpoint register (key : PyVal) (l : list PyVal) (al : dict PyVal PyVal)
  : option (PyVal * PyVal) * dict PyVal PyVal :=
  match l with
  | [] => (None, al)
  | a :: l' =>
      match dict_get al a with
      | Some target =>
          if negb (py_eq target key) then (Some (a, target), al)
          else register key l' (dict_set al a key)
      | None => register key l' (dict_set al a key)
      end
  end.

(** The state with the entry store and the alias index replaced. *)
Definition rebuild (w : World) (its al : dict PyVal PyVal) : World :=
  mkWorld (CleverDict_expand w)
          (mkCleverDict its (dict_set (vars (self w)) "_aliases" (ADict al))).

(** The shape every object has after [__init__]: an alias index is bound,
    and no dictionary repeats a key. *)
Definition wf_container (c : CleverDict) : bool :=
  (dict_wf (items c) && dict_wf (vars c)
   && match aliases_of c with Some al => dict_wf al | None => false end)%bool.

(** The cascade of [delete_alias] over the derived forms [l]: a form is
    deleted when it is a key of the alias index other than the first one.
    The test guarantees that the deletion finds its key. *)
Fixpoint cascade (l : list PyVal) (al : dict PyVal PyVal) : dict PyVal PyVal :=
  match l with
  | [] => al
  | alx :: l' =>
      if py_in alx (tl (dict_keys al))
      then match dict_del al alx with
           | Some al' => cascade l' al'
           | None => al
           end
      else cascade l' al
  end.


(** Every value of a dictionary passes the test [good]. *)
Definition all_good {K V : Type} (good : V -> bool) (d : dict K V) : Prop :=
  forallb (fun kv => good (snd kv)) d = true.

(** Dictionaries bound to attributes repeat no key either. *)
Definition attr_wf (v : AttrVal) : bool :=
  match v with
  | ADict d => dict_wf d
  | AVal _ => true
  end.

Definition wf_attrs (c : CleverDict) : bool :=
  forallb (fun kv => attr_wf (snd kv)) (vars c).

(** The aliases are the stored keys, each registered for itself: the
    state of a container filled while expansion is disabled. *)
Definition plain (its al : dict PyVal PyVal) : Prop :=
  forall x,
    match dict_get al x with
    | Some t => py_eq t x = true /\ dict_contains its x = true
    | None => dict_contains its x = false
    end.

(** [dict.update] with a list of pairs, on a plain dictionary. *)
Definition dict_update (d : dict PyVal PyVal) (pairs : list (PyVal * PyVal))
  : dict PyVal PyVal :=
  fold_left (fun d kv => dict_set d (fst kv) (snd kv)) pairs d.




Class PyKeyLaws (K : Type) `{PyKey K} : Prop := {
  key_eq_refl : forall k, key_eq k k = true;
  key_eq_sym : forall a b, key_eq a b = key_eq b a;
  key_eq_trans : forall a b c, key_eq a b = true -> key_eq b c = true -> key_eq a c = true
}.

(** * Properties *)

(** ** Equality of scalars *)

Lemma py_eq_canon (a b : PyVal) : py_eq a b = true <-> canon a = canon b.
Proof.
  destruct a as [x|[|]|s|], b as [y|[|]|t|];
    cbv beta iota delta [py_eq py_num canon Z.b2z]; split; intros E;
    try discriminate; try reflexivity;
    try (apply Z.eqb_eq in E; subst; reflexivity);
    try (apply String.eqb_eq in E; subst; reflexivity);
    try (injection E as E; subst; first [apply Z.eqb_refl | apply String.eqb_refl]).
Qed.

Lemma py_eq_refl (a : PyVal) : py_eq a a = true.
Proof. apply py_eq_canon. reflexivity. Qed.

Lemma py_eq_sym (a b : PyVal) : py_eq a b = py_eq b a.
Proof.
  destruct (py_eq a b) eqn:E1, (py_eq b a) eqn:E2; try reflexivity.
  - apply py_eq_canon in E1. symmetry in E1. apply py_eq_canon in E1. congruence.
  - apply py_eq_canon in E2. symmetry in E2. apply py_eq_canon in E2. congruence.
Qed.

Lemma py_eq_trans (a b c : PyVal) :
  py_eq a b = true -> py_eq b c = true -> py_eq a c = true.
Proof.
  rewrite !py_eq_canon. congruence.
Qed.

#[global] Instance PyKeyLaws_PyVal : PyKeyLaws PyVal :=
  {| key_eq_refl := py_eq_refl; key_eq_sym := py_eq_sym; key_eq_trans := py_eq_trans |}.

#[global] Instance PyKeyLaws_str : PyKeyLaws string.
Proof.
  split.
  - apply String.eqb_refl.
  - apply String.eqb_sym.
  - intros a b c E1 E2. apply String.eqb_eq in E1, E2. subst. apply String.eqb_refl.
Qed.

(** ** Dictionaries *)

Section DictFacts.
Context {K V : Type} `{PyKeyLaws K}.
Implicit Types (d : dict K V) (k : K) (v : V).

Lemma key_eq_congr_l a b c : key_eq a b = true -> key_eq a c = key_eq b c.
Proof.
  intros E. destruct (key_eq b c) eqn:Ebc.
  - eapply key_eq_trans; eassumption.
  - destruct (key_eq a c) eqn:Eac; [|reflexivity].
    rewrite key_eq_sym in E.
    rewrite (key_eq_trans _ _ _ E Eac) in Ebc. discriminate.
Qed.

Lemma key_eq_congr_r a b c : key_eq a b = true -> key_eq c a = key_eq c b.
Proof.
  intros E. rewrite (key_eq_sym c a), (key_eq_sym c b).
  now apply key_eq_congr_l.
Qed.

Lemma dict_get_cong d k k' :
  key_eq k k' = true -> dict_get d k = dict_get d k'.
Proof.
  intros E. induction d as [|[k0 v0] d IH]; simpl; [reflexivity|].
  rewrite (key_eq_congr_r _ _ k0 E), IH. reflexivity.
Qed.

Lemma dict_contains_cong d k k' :
  key_eq k k' = true -> dict_contains d k = dict_contains d k'.
Proof.
  intros E. unfold dict_contains. now rewrite (dict_get_cong d k k' E).
Qed.

Lemma dict_get_set_same d k k' v :
  key_eq k k' = true -> dict_get (dict_set d k v) k' = Some v.
Proof.
  intros E. induction d as [|[k0 v0] d IH]; simpl.
  - now rewrite E.
  - destruct (key_eq k0 k) eqn:E0; simpl.
    + now rewrite <- (key_eq_congr_r _ _ k0 E), E0.
    + now rewrite <- (key_eq_congr_r _ _ k0 E), E0.
Qed.

Lemma dict_get_set_other d k k' v :
  key_eq k k' = false -> dict_get (dict_set d k v) k' = dict_get d k'.
Proof.
  intros E. induction d as [|[k0 v0] d IH]; simpl.
  - now rewrite E.
  - destruct (key_eq k0 k) eqn:E0; simpl.
    + now rewrite (key_eq_congr_l _ _ k' E0), E.
    + now rewrite IH.
Qed.

Lemma dict_get_set d k k' v :
  dict_get (dict_set d k v) k' =
  if key_eq k k' then Some v else dict_get d k'.
Proof.
  destruct (key_eq k k') eqn:E.
  - now apply dict_get_set_same.
  - now apply dict_get_set_other.
Qed.

Lemma dict_contains_set d k k' v :
  dict_contains (dict_set d k v) k' = (key_eq k k' || dict_contains d k')%bool.
Proof.
  unfold dict_contains. rewrite dict_get_set.
  now destruct (key_eq k k').
Qed.

Lemma dict_set_id d k v : dict_get d k = Some v -> dict_set d k v = d.
Proof.
  induction d as [|[k0 v0] d IH]; simpl; [discriminate|].
  destruct (key_eq k0 k); intros E.
  - now injection E as ->.
  - now rewrite IH.
Qed.

Lemma dict_set_set d k v v' :
  dict_set (dict_set d k v) k v' = dict_set d k v'.
Proof.
  induction d as [|[k0 v0] d IH]; simpl.
  - now rewrite key_eq_refl.
  - destruct (key_eq k0 k) eqn:E0; simpl; rewrite E0; [reflexivity|].
    now rewrite IH.
Qed.

Lemma dict_keys_set_present d k v :
  dict_contains d k = true -> dict_keys (dict_set d k v) = dict_keys d.
Proof.
  unfold dict_contains.
  induction d as [|[k0 v0] d IH]; simpl; [discriminate|].
  destruct (key_eq k0 k); simpl; intros E; [reflexivity|].
  now rewrite IH.
Qed.

Lemma dict_wf_set d k v : dict_wf d = true -> dict_wf (dict_set d k v) = true.
Proof.
  induction d as [|[k0 v0] d IH]; simpl; [reflexivity|].
  intros W. apply andb_true_iff in W as [W1 W2].
  destruct (key_eq k0 k) eqn:E0; simpl.
  - now rewrite W1, W2.
  - rewrite dict_contains_set, (key_eq_sym k k0), E0, IH by assumption.
    simpl. now rewrite W1.
Qed.

Lemma dict_del_some d k :
  dict_contains d k = true -> exists d', dict_del d k = Some d'.
Proof.
  unfold dict_contains.
  induction d as [|[k0 v0] d IH]; simpl; [discriminate|].
  destruct (key_eq k0 k); intros E; [eauto|].
  destruct (IH E) as [d' ->]. eauto.
Qed.

Lemma dict_get_del_other d d' k k' :
  dict_del d k = Some d' -> key_eq k k' = false ->
  dict_get d' k' = dict_get d k'.
Proof.
  revert d'. induction d as [|[k0 v0] d IH]; simpl; intros d' D E; [discriminate|].
  destruct (key_eq k0 k) eqn:E0.
  - injection D as <-. now rewrite (key_eq_congr_l _ _ k' E0), E.
  - destruct (dict_del d k) as [d''|]; [|discriminate].
    injection D as <-. simpl. now rewrite (IH d'' eq_refl E).
Qed.

Lemma dict_get_del_same d d' k k' :
  dict_wf d = true -> dict_del d k = Some d' -> key_eq k k' = true ->
  dict_get d' k' = None.
Proof.
  revert d'. induction d as [|[k0 v0] d IH]; simpl; intros d' W D E; [discriminate|].
  apply andb_true_iff in W as [W1 W2]. apply negb_true_iff in W1.
  destruct (key_eq k0 k) eqn:E0.
  - injection D as <-.
    unfold dict_contains in W1.
    rewrite <- (dict_get_cong d k0 k' (key_eq_trans _ _ _ E0 E)).
    now destruct (dict_get d k0).
  - destruct (dict_del d k) as [d''|]; [|discriminate].
    injection D as <-. simpl.
    rewrite <- (key_eq_congr_r _ _ k0 E), E0. now apply IH.
Qed.

Lemma dict_wf_del d d' k :
  dict_wf d = true -> dict_del d k = Some d' -> dict_wf d' = true.
Proof.
  revert d'. induction d as [|[k0 v0] d IH]; simpl; intros d' W D; [discriminate|].
  apply andb_true_iff in W as [W1 W2].
  destruct (key_eq k0 k) eqn:E0.
  - now injection D as <-.
  - destruct (dict_del d k) as [d''|] eqn:D'; [|discriminate].
    injection D as <-. simpl. rewrite (IH d'' W2 eq_refl), andb_true_r.
    unfold dict_contains in *.
    rewrite (dict_get_del_other d d'' k k0 D'); [assumption|].
    now rewrite key_eq_sym.
Qed.

Lemma dict_del_length d d' k :
  dict_del d k = Some d' -> List.length d = S (List.length d').
Proof.
  revert d'. induction d as [|[k0 v0] d IH]; simpl; intros d' D; [discriminate|].
  destruct (key_eq k0 k).
  - now injection D as <-.
  - destruct (dict_del d k) as [d''|]; [|discriminate].
    injection D as <-. simpl. now rewrite (IH d'' eq_refl).
Qed.

Lemma dict_get_In d k v :
  dict_get d k = Some v -> exists k0, In (k0, v) d /\ key_eq k0 k = true.
Proof.
  induction d as [|[k0 v0] d IH]; simpl; [discriminate|].
  destruct (key_eq k0 k) eqn:E0; intros E.
  - injection E as ->. eauto.
  - destruct (IH E) as (k1 & I & E1). eauto.
Qed.

Lemma dict_In_get d k v :
  dict_wf d = true -> In (k, v) d -> dict_get d k = Some v.
Proof.
  induction d as [|[k0 v0] d IH]; simpl; [intros _ []|].
  intros W [I|I]; apply andb_true_iff in W as [W1 W2].
  - injection I as -> ->. now rewrite key_eq_refl.
  - specialize (IH W2 I). apply negb_true_iff in W1.
    destruct (key_eq k0 k) eqn:E0; [|assumption].
    unfold dict_contains in W1.
    rewrite (dict_get_cong d k0 k E0), IH in W1. discriminate.
Qed.

Lemma dict_In_contains d k v : In (k, v) d -> dict_contains d k = true.
Proof.
  unfold dict_contains.
  induction d as [|[k0 v0] d IH]; simpl; [intros []|].
  intros [I|I].
  - injection I as -> ->. now rewrite key_eq_refl.
  - destruct (key_eq k0 k); [reflexivity|]. now apply IH.
Qed.
End DictFacts.

(** ** Equality of dictionaries *)

Section DictEquality.
Context {K V : Type} `{PyKeyLaws K}.
Implicit Types (a b : dict K V).

Lemma dict_wf_head_fresh (k : K) (v : V) a k' :
  dict_wf ((k, v) :: a) = true -> dict_contains a k' = true ->
  key_eq k k' = false.
Proof.
  simpl. intros W C. apply andb_true_iff in W as [W _].
  apply negb_true_iff in W.
  destruct (key_eq k k') eqn:E; [|reflexivity].
  rewrite (dict_contains_cong a k k' E) in W. congruence.
Qed.

Lemma dict_contains_cons (k : K) (v : V) a k' :
  dict_contains ((k, v) :: a) k' = (key_eq k k' || dict_contains a k')%bool.
Proof. unfold dict_contains. simpl. now destruct (key_eq k k'). Qed.

Lemma dict_incl_length a : forall b,
  dict_wf a = true -> dict_wf b = true ->
  (forall k, dict_contains a k = true -> dict_contains b k = true) ->
  (List.length a <= List.length b)%nat.
Proof.
  induction a as [|[k0 v0] a IH]; intros b Wa Wb I; simpl; [lia|].
  destruct (dict_del_some b k0) as [b' D].
  { apply I. rewrite dict_contains_cons, key_eq_refl. reflexivity. }
  rewrite (dict_del_length b b' k0 D).
  apply le_n_S, IH.
  - simpl in Wa. now apply andb_true_iff in Wa as [_ Wa].
  - eapply dict_wf_del; eassumption.
  - intros k C. pose proof (dict_wf_head_fresh _ _ _ _ Wa C) as E.
    unfold dict_contains. rewrite (dict_get_del_other b b' k0 k D E).
    apply I. rewrite dict_contains_cons, C. apply orb_true_r.
Qed.

Lemma dict_incl_full a : forall b,
  dict_wf a = true -> dict_wf b = true ->
  List.length a = List.length b ->
  (forall k, dict_contains a k = true -> dict_contains b k = true) ->
  forall k, dict_contains b k = true -> dict_contains a k = true.
Proof.
  induction a as [|[k0 v0] a IH]; intros b Wa Wb L I k C.
  - destruct b; [discriminate C|discriminate L].
  - destruct (dict_del_some b k0) as [b' D].
    { apply I. rewrite dict_contains_cons, key_eq_refl. reflexivity. }
    rewrite dict_contains_cons.
    destruct (key_eq k0 k) eqn:E; [reflexivity|]. simpl.
    apply (IH b').
    + simpl in Wa. now apply andb_true_iff in Wa as [_ Wa].
    + eapply dict_wf_del; eassumption.
    + rewrite (dict_del_length b b' k0 D) in L. simpl in L. lia.
    + intros k1 C1. pose proof (dict_wf_head_fresh _ _ _ _ Wa C1) as E1.
      unfold dict_contains. rewrite (dict_get_del_other b b' k0 k1 D E1).
      apply I. rewrite dict_contains_cons, C1. apply orb_true_r.
    + unfold dict_contains. now rewrite (dict_get_del_other b b' k0 k D E).
Qed.

Lemma dict_same_contains (veq : V -> V -> bool) a b :
  dict_same veq a b ->
  forall k, dict_contains a k = dict_contains b k.
Proof.
  intros S k. specialize (S k). unfold dict_contains.
  destruct (dict_get a k), (dict_get b k); tauto.
Qed.

(** The comparison [dict_eqb] made by the interpreter decides that two
    dictionaries hold the same keys with equal values. *)
Lemma dict_eqb_same (veq : V -> V -> bool) a b :
  dict_wf a = true -> dict_wf b = true ->
  (dict_eqb veq a b = true <-> dict_same veq a b).
Proof.
  intros Wa Wb. unfold dict_eqb. rewrite andb_true_iff, Nat.eqb_eq, forallb_forall.
  split.
  - intros [L F].
    assert (I : forall k x, dict_get a k = Some x ->
                 exists y, dict_get b k = Some y /\ veq x y = true).
    { intros k x G. destruct (dict_get_In a k x G) as (k0 & In0 & E0).
      specialize (F _ In0). simpl in F.
      rewrite <- (dict_get_cong b k0 k E0).
      destruct (dict_get b k0) as [y|]; [eauto|discriminate]. }
    intros k. destruct (dict_get a k) as [x|] eqn:Ga.
    + destruct (I k x Ga) as (y & -> & E). exact E.
    + destruct (dict_get b k) as [y|] eqn:Gb; [|exact Logic.I].
      assert (C : dict_contains a k = true).
      { apply (dict_incl_full a b Wa Wb L).
        - intros k1. unfold dict_contains.
          destruct (dict_get a k1) as [x1|] eqn:G1; [|discriminate].
          destruct (I k1 x1 G1) as (y1 & -> & _). reflexivity.
        - unfold dict_contains. now rewrite Gb. }
      unfold dict_contains in C. rewrite Ga in C. discriminate.
  - intros S. pose proof (dict_same_contains veq a b S) as C. split.
    + apply Nat.le_antisymm; apply dict_incl_length; try assumption;
        intros k; rewrite C; trivial.
    + intros [k v] In0. simpl.
      pose proof (dict_In_get a k v Wa In0) as G.
      specialize (S k). rewrite G in S.
      destruct (dict_get b k); [assumption|contradiction].
Qed.
End DictEquality.

(** ** Equality of containers *)

Lemma dict_get_direct_attributes (c : CleverDict) (name : string) :
  dict_get (direct_attributes c) name =
  if String.eqb name "_aliases" then None else dict_get (vars c) name.
Proof.
  unfold direct_attributes. induction (vars c) as [|[k0 v0] d IH]; simpl.
  - now destruct (String.eqb name "_aliases").
  - destruct (String.eqb k0 "_aliases") eqn:E0; simpl.
    + rewrite IH. apply String.eqb_eq in E0. subst k0.
      unfold key_eq, PyKey_str. rewrite (String.eqb_sym "_aliases" name).
      now destruct (String.eqb name "_aliases").
    + rewrite IH. unfold key_eq, PyKey_str.
      destruct (String.eqb k0 name) eqn:E1; [|reflexivity].
      apply String.eqb_eq in E1. subst k0. now rewrite E0.
Qed.

Lemma aliases_of_get (c : CleverDict) (al : dict PyVal PyVal) :
  aliases_of c = Some al -> dict_get (vars c) "_aliases" = Some (ADict al).
Proof.
  unfold aliases_of. destruct (dict_get (vars c) "_aliases") as [[d|v]|];
    congruence.
Qed.

Lemma wf_container_parts (c : CleverDict) (al : dict PyVal PyVal) :
  wf_container c = true -> aliases_of c = Some al ->
  dict_wf (items c) = true /\ dict_wf (vars c) = true /\ dict_wf al = true.
Proof.
  unfold wf_container. intros W A. rewrite A in W.
  apply andb_true_iff in W as [W W3]. apply andb_true_iff in W as [W1 W2].
  auto.
Qed.

(** The instance dictionaries are equal exactly when the alias indexes
    are and the direct attributes are. *)
Lemma vars_same_split (c1 c2 : CleverDict) (al1 al2 : dict PyVal PyVal) :
  aliases_of c1 = Some al1 -> aliases_of c2 = Some al2 ->
  dict_wf al1 = true -> dict_wf al2 = true ->
  (dict_same attr_eqb (vars c1) (vars c2) <->
   dict_same py_eq al1 al2 /\
   dict_same attr_eqb (direct_attributes c1) (direct_attributes c2)).
Proof.
  intros A1 A2 W1 W2.
  apply aliases_of_get in A1, A2. split.
  - intros S. split.
    + specialize (S "_aliases"). rewrite A1, A2 in S. simpl in S.
      now apply dict_eqb_same in S.
    + intros k. rewrite !dict_get_direct_attributes.
      destruct (String.eqb k "_aliases"); [exact I|apply S].
  - intros [Sa Sd] k. destruct (String.eqb k "_aliases") eqn:E.
    + apply String.eqb_eq in E. subst k. rewrite A1, A2. simpl.
      now apply dict_eqb_same.
    + specialize (Sd k). rewrite !dict_get_direct_attributes, E in Sd. exact Sd.
Qed.

(** C1 (as amended): two containers are equal exactly when their item
    sets are equal, their alias indexes are equal as dictionaries and
    their remaining direct attributes are equal.  [__eq__] compares
    [vars(self)], which holds the alias index under the name [_aliases],
    so the aliases take part in equality.  In particular, two containers
    with equal items and equal remaining direct attributes are equal
    exactly when their alias indexes are equal: alias declarations that
    differ but give the same index still compare equal. *)
Theorem C1_eq_compares_items_aliases_and_attributes
    (c1 c2 : CleverDict) (al1 al2 : dict PyVal PyVal)
    (W1 : wf_container c1 = true) (W2 : wf_container c2 = true)
    (A1 : aliases_of c1 = Some al1) (A2 : aliases_of c2 = Some al2) :
  (__eq__ c1 c2 = true <->
   dict_same py_eq (items c1) (items c2) /\
   dict_same py_eq al1 al2 /\
   dict_same attr_eqb (direct_attributes c1) (direct_attributes c2)) /\
  (dict_same py_eq (items c1) (items c2) ->
   dict_same attr_eqb (direct_attributes c1) (direct_attributes c2) ->
   (__eq__ c1 c2 = true <-> dict_same py_eq al1 al2)).
Proof.
  destruct (wf_container_parts c1 al1 W1 A1) as (Wi1 & Wv1 & Wa1).
  destruct (wf_container_parts c2 al2 W2 A2) as (Wi2 & Wv2 & Wa2).
  assert (Iff : __eq__ c1 c2 = true <->
                dict_same py_eq (items c1) (items c2) /\
                dict_same py_eq al1 al2 /\
                dict_same attr_eqb (direct_attributes c1) (direct_attributes c2)).
  { unfold __eq__. rewrite andb_true_iff.
    rewrite (dict_eqb_same py_eq _ _ Wi1 Wi2).
    rewrite (dict_eqb_same attr_eqb _ _ Wv1 Wv2).
    rewrite (vars_same_split c1 c2 al1 al2 A1 A2 Wa1 Wa2).
    reflexivity. }
  split; [exact Iff|].
  intros Si Sd. rewrite Iff. split.
  - now intros (_ & Sa & _).
  - intros Sa. now repeat split.
Qed.

(** Two pairs of containers that the constructor builds from the same
    items with different alias declarations.  In the first pair the
    declarations give different indexes and the containers are unequal;
    in the second pair one container derives the aliases of the key 1
    under expansion and the other declares them, the indexes are the
    same and the containers are equal. *)
Lemma C1_eq_witness :
  let b := mkCleverDict [(VStr "a", VInt 1)]
             [("_aliases", ADict [(VStr "a", VStr "a"); (VStr "b", VStr "a")])] in
  let c := mkCleverDict [(VStr "a", VInt 1)]
             [("_aliases", ADict [(VStr "a", VStr "a"); (VStr "c", VStr "a")])] in
  let d := mkCleverDict [(VInt 1, VStr "x")]
             [("_aliases", ADict [(VInt 1, VInt 1); (VStr "_1", VInt 1);
                                   (VStr "_True", VInt 1)])] in
  (CleverDict_new true [(VStr "a", VInt 1)] (Some [(VStr "b", VStr "a")]) [] []
     = (Ok b, true) /\
   CleverDict_new true [(VStr "a", VInt 1)] (Some [(VStr "c", VStr "a")]) [] []
     = (Ok c, true) /\
   (__eq__ b c = true <->
    dict_same py_eq [(VStr "a", VStr "a"); (VStr "b", VStr "a")]
                    [(VStr "a", VStr "a"); (VStr "c", VStr "a")])) /\
  (CleverDict_new true [(VInt 1, VStr "x")] None [] [] = (Ok d, true) /\
   CleverDict_new true [(VInt 1, VStr "x")]
     (Some [(VStr "_1", VInt 1); (VStr "_True", VInt 1)]) [] [] = (Ok d, true) /\
   __eq__ d d = true).
Proof.
  intros b c d. split.
  - split; [reflexivity|]. split; [reflexivity|].
    apply (C1_eq_compares_items_aliases_and_attributes b c
             [(VStr "a", VStr "a"); (VStr "b", VStr "a")]
             [(VStr "a", VStr "a"); (VStr "c", VStr "a")]
             eq_refl eq_refl eq_refl eq_refl).
    + apply (dict_eqb_same py_eq); reflexivity.
    + apply (dict_eqb_same attr_eqb); reflexivity.
  - split; [reflexivity|]. split; [reflexivity|].
    apply (C1_eq_compares_items_aliases_and_attributes d d
             [(VInt 1, VInt 1); (VStr "_1", VInt 1); (VStr "_True", VInt 1)]
             [(VInt 1, VInt 1); (VStr "_1", VInt 1); (VStr "_True", VInt 1)]
             eq_refl eq_refl eq_refl eq_refl).
    + apply (dict_eqb_same py_eq); reflexivity.
    + apply (dict_eqb_same attr_eqb); reflexivity.
    + apply (dict_eqb_same py_eq); reflexivity.
Defined.

(** C1 (as stated) fails: the two containers are built by the constructor
    from the same items with different alias declarations; their item sets
    are equal and so are their direct attributes without the alias index,
    yet they compare unequal. *)
Lemma C1_equal_items_different_aliases_unequal :
  let c1 := mkCleverDict [(VStr "a", VInt 1)]
              [("_aliases", ADict [(VStr "a", VStr "a"); (VStr "b", VStr "a")])] in
  let c2 := mkCleverDict [(VStr "a", VInt 1)]
              [("_aliases", ADict [(VStr "a", VStr "a"); (VStr "c", VStr "a")])] in
  CleverDict_new true [(VStr "a", VInt 1)] (Some [(VStr "b", VStr "a")]) [] []
    = (Ok c1, true) /\
  CleverDict_new true [(VStr "a", VInt 1)] (Some [(VStr "c", VStr "a")]) [] []
    = (Ok c2, true) /\
  dict_eqb py_eq (items c1) (items c2) = true /\
  dict_eqb attr_eqb (direct_attributes c1) (direct_attributes c2) = true /\
  __eq__ c1 c2 = false.
Proof. repeat split. Qed.

(** ** States *)

Lemma vars_slot_set (vs : dict string AttrVal) (x : AttrVal) :
  dict_get (dict_set vs "_aliases" x) "_aliases" = Some x.
Proof. apply dict_get_set_same. reflexivity. Qed.

Lemma aliases_of_rebuild (w : World) (its al : dict PyVal PyVal) :
  aliases_of (self (rebuild w its al)) = Some al.
Proof. unfold aliases_of, rebuild. simpl. now rewrite vars_slot_set. Qed.

Lemma items_rebuild (w : World) (its al : dict PyVal PyVal) :
  items (self (rebuild w its al)) = its.
Proof. reflexivity. Qed.

Lemma expand_rebuild (w : World) (its al : dict PyVal PyVal) :
  CleverDict_expand (rebuild w its al) = CleverDict_expand w.
Proof. reflexivity. Qed.

Lemma rebuild_rebuild (w : World) (its al its' al' : dict PyVal PyVal) :
  rebuild (rebuild w its al) its' al' = rebuild w its' al'.
Proof. unfold rebuild. simpl. now rewrite dict_set_set. Qed.

Lemma rebuild_id (w : World) (al : dict PyVal PyVal) :
  aliases_of (self w) = Some al -> rebuild w (items (self w)) al = w.
Proof.
  intros A. apply aliases_of_get in A. destruct w as [f [its vs]].
  unfold rebuild. simpl in *. now rewrite (dict_set_id vs "_aliases" _ A).
Qed.

Lemma rebuild_write_expand (w : World) (b : bool) (its al : dict PyVal PyVal) :
  rebuild (write_expand b w) its al = write_expand b (rebuild w its al).
Proof. reflexivity. Qed.

(** ** The methods as functions of the entry store and the alias index *)

Lemma read_aliases_rebuild (w : World) (its al : dict PyVal PyVal) :
  read_aliases (rebuild w its al) = (Ok al, rebuild w its al).
Proof. unfold read_aliases. simpl. now rewrite vars_slot_set. Qed.

Lemma write_aliases_rebuild (w : World) (its al al' : dict PyVal PyVal) :
  write_aliases al' (rebuild w its al) = (Ok tt, rebuild w its al').
Proof.
  unfold write_aliases, setattr_direct. simpl.
  change (mkWorld (CleverDict_expand w) _) with (rebuild (rebuild w its al) its al').
  now rewrite rebuild_rebuild.
Qed.

Lemma write_items_rebuild (w : World) (its al its' : dict PyVal PyVal) :
  write_items its' (rebuild w its al) = (Ok tt, rebuild w its' al).
Proof. reflexivity. Qed.

Lemma _add_alias_rebuild (name alias : PyVal) (w : World) (its al : dict PyVal PyVal) :
  _add_alias name alias (rebuild w its al) =
  match dict_get al alias with
  | Some target =>
      if negb (py_eq target name)
      then (Raise (KeyError (MsgAlreadyAlias alias target)), rebuild w its al)
      else (Ok tt, rebuild w its (dict_set al alias name))
  | None => (Ok tt, rebuild w its (dict_set al alias name))
  end.
Proof.
  unfold _add_alias, bind. rewrite read_aliases_rebuild.
  destruct (dict_get al alias) as [target|].
  - destruct (negb (py_eq target name)); [reflexivity|].
    apply write_aliases_rebuild.
  - apply write_aliases_rebuild.
Qed.

(** The loops over [_add_alias] compute [register]. *)
Lemma register_loop (key : PyVal) (l : list PyVal) :
  forall (w : World) (its al : dict PyVal PyVal),
  for_each l (fun a => _add_alias key a) (rebuild w its al) =
  (match fst (register key l al) with
   | None => Ok tt
   | Some (a, target) => Raise (KeyError (MsgAlreadyAlias a target))
   end,
   rebuild w its (snd (register key l al))).
Proof.
  induction l as [|a l IH]; intros w its al; simpl; [reflexivity|].
  unfold bind. rewrite _add_alias_rebuild.
  destruct (dict_get al a) as [target|].
  - destruct (negb (py_eq target key)); [reflexivity|]. apply IH.
  - apply IH.
Qed.

Lemma get_key_rebuild (name : PyVal) (w : World) (its al : dict PyVal PyVal) :
  get_key name (rebuild w its al) =
  (match dict_get al name with
   | Some key => Ok key
   | None => Raise (KeyError (MsgKey name))
   end, rebuild w its al).
Proof.
  unfold get_key, bind. rewrite read_aliases_rebuild.
  now destruct (dict_get al name).
Qed.

Lemma __getitem___rebuild (name : PyVal) (w : World) (its al : dict PyVal PyVal) :
  __getitem__ name (rebuild w its al) =
  (match dict_get al name with
   | Some key =>
       match dict_get its key with
       | Some v => Ok v
       | None => Raise (KeyError (MsgKey key))
       end
   | None => Raise (KeyError (MsgKey name))
   end, rebuild w its al).
Proof.
  unfold __getitem__, bind. rewrite get_key_rebuild.
  destruct (dict_get al name) as [key|]; [|reflexivity].
  unfold super__getitem__, bind, read_items. simpl.
  now destruct (dict_get its key).
Qed.


Lemma __setattr___rebuild (name value : PyVal) (w : World) (its al : dict PyVal PyVal) :
  __setattr__ name value (rebuild w its al) =
  match dict_get al name with
  | Some key => (Ok tt, rebuild w (dict_set its key value) al)
  | None =>
      if negb (dict_contains its name) then
        match register name (name_to_aliases (CleverDict_expand w) name) al with
        | (None, al') => (Ok tt, rebuild w (dict_set its name value) al')
        | (Some (a, target), al') =>
            (Raise (KeyError (MsgAlreadyAlias a target)), rebuild w its al')
        end
      else (Ok tt, rebuild w (dict_set its name value) al)
  end.
Proof.
  unfold __setattr__, bind. rewrite read_aliases_rebuild.
  destruct (dict_get al name) as [key|]; [reflexivity|].
  unfold read_items at 1.
  change (items (self (rebuild w its al))) with its.
  destruct (negb (dict_contains its name)); [|reflexivity].
  unfold read_expand at 1.
  change (CleverDict_expand (rebuild w its al)) with (CleverDict_expand w).
  rewrite register_loop.
  destruct (register name (name_to_aliases (CleverDict_expand w) name) al)
    as [[[a target]|] al']; reflexivity.
Qed.

Lemma add_alias_scalar_rebuild (name alias : PyVal) (w : World) (its al : dict PyVal PyVal) :
  add_alias name (Scalar alias) (rebuild w its al) =
  match dict_get al name with
  | Some key =>
      (match fst (register key (name_to_aliases (CleverDict_expand w) alias) al) with
       | None => Ok tt
       | Some (a, target) => Raise (KeyError (MsgAlreadyAlias a target))
       end,
       rebuild w its (snd (register key (name_to_aliases (CleverDict_expand w) alias) al)))
  | None => (Raise (KeyError (MsgKey name)), rebuild w its al)
  end.
Proof.
  unfold add_alias, bind. rewrite get_key_rebuild.
  destruct (dict_get al name) as [key|]; [|reflexivity].
  cbn [alias_list for_each]. unfold bind, read_expand.
  change (CleverDict_expand (rebuild w its al)) with (CleverDict_expand w).
  rewrite register_loop.
  destruct (fst (register key (name_to_aliases (CleverDict_expand w) alias) al))
    as [[a target]|]; reflexivity.
Qed.

(** ** Registration of aliases *)

Lemma name_to_aliases_head (expand : bool) (name : PyVal) :
  exists rest, name_to_aliases expand name = name :: rest.
Proof.
  unfold name_to_aliases, list_append.
  destruct expand; [|eauto].
  destruct (eq_own_hash name).
  - destruct (py_in name [VInt 0; VInt 1]); cbn [app]; eauto.
  - destruct (negb (py_eq name (VStr (py_str name))) && isidentifier (py_str name)
              && negb (iskeyword (py_str name)))%bool;
      destruct (negb (String.eqb (py_str name) (norm_name_of (py_str name))));
      cbn [app]; eauto.
Qed.

Lemma name_to_aliases_disabled (name : PyVal) :
  name_to_aliases false name = [name].
Proof. reflexivity. Qed.

Lemma register_succeeds (key : PyVal) (l : list PyVal) :
  forall al,
  (forall a t, In a l -> dict_get al a = Some t -> py_eq t key = true) ->
  fst (register key l al) = None.
Proof.
  induction l as [|a l IH]; intros al F; simpl; [reflexivity|].
  assert (Fl : forall a' t, In a' l ->
               dict_get (dict_set al a key) a' = Some t -> py_eq t key = true).
  { intros a' t I. rewrite dict_get_set.
    destruct (key_eq a a').
    - intros [= <-]. apply py_eq_refl.
    - apply F. now right. }
  destruct (dict_get al a) as [target|] eqn:G; [|now apply IH].
  rewrite (F a target (or_introl eq_refl) G). simpl. now apply IH.
Qed.

Lemma register_keeps_key (key : PyVal) (l : list PyVal) :
  forall al x,
  dict_get al x = Some key -> dict_get (snd (register key l al)) x = Some key.
Proof.
  induction l as [|a l IH]; intros al x G; simpl; [assumption|].
  assert (G' : dict_get (dict_set al a key) x = Some key).
  { rewrite dict_get_set. now destruct (key_eq a x). }
  destruct (dict_get al a) as [target|]; [|now apply IH].
  destruct (negb (py_eq target key)); [assumption|now apply IH].
Qed.

Lemma register_registers (key : PyVal) (l : list PyVal) :
  forall al,
  fst (register key l al) = None ->
  forall a, In a l -> dict_get (snd (register key l al)) a = Some key.
Proof.
  induction l as [|a0 l IH]; intros al S a I; [destruct I|].
  simpl in S |- *.
  assert (G0 : dict_get (dict_set al a0 key) a0 = Some key).
  { apply dict_get_set_same, py_eq_refl. }
  assert (Step : fst (register key l (dict_set al a0 key)) = None ->
                 dict_get (snd (register key l (dict_set al a0 key))) a = Some key).
  { intros S'. destruct I as [<-|I].
    - now apply register_keeps_key.
    - now apply IH. }
  destruct (dict_get al a0) as [target|]; [|now apply Step].
  destruct (negb (py_eq target key)); [discriminate S|now apply Step].
Qed.

(** Registration never redirects an alias: what resolved before resolves
    to an equal key afterwards, whether the loop ends or raises. *)
Lemma register_preserves (key : PyVal) (l : list PyVal) :
  forall al x t,
  dict_get al x = Some t ->
  exists t', dict_get (snd (register key l al)) x = Some t' /\ py_eq t' t = true.
Proof.
  induction l as [|a l IH]; intros al x t G; simpl.
  { exists t. split; [assumption|apply py_eq_refl]. }
  destruct (dict_get al a) as [target|] eqn:Ga.
  - destruct (py_eq target key) eqn:E; simpl.
    + destruct (key_eq a x) eqn:Eax.
      * rewrite (dict_get_cong al a x Eax), G in Ga. injection Ga as ->.
        destruct (IH (dict_set al a key) x key) as (t' & G' & E').
        { now apply dict_get_set_same. }
        exists t'. split; [assumption|].
        apply (py_eq_trans _ _ _ E'). now rewrite py_eq_sym.
      * apply IH. now rewrite dict_get_set_other.
    + exists t. split; [assumption|apply py_eq_refl].
  - destruct (key_eq a x) eqn:Eax.
    + rewrite (dict_get_cong al a x Eax), G in Ga. discriminate.
    + apply IH. now rewrite dict_get_set_other.
Qed.

(** A collision names an alias of the list and the key it was registered
    for before the loop started. *)
Lemma register_collision (key : PyVal) (l : list PyVal) :
  forall al a t,
  fst (register key l al) = Some (a, t) ->
  In a l /\ dict_get al a = Some t /\ py_eq t key = false.
Proof.
  induction l as [|a0 l IH]; intros al a t S; simpl in S; [discriminate|].
  assert (Step : fst (register key l (dict_set al a0 key)) = Some (a, t) ->
                 In a (a0 :: l) /\ dict_get al a = Some t /\ py_eq t key = false).
  { intros S'. destruct (IH _ _ _ S') as (I & G & E).
    split; [now right|]. split; [|assumption].
    rewrite dict_get_set in G. destruct (key_eq a0 a); [|assumption].
    injection G as <-. rewrite py_eq_refl in E. discriminate. }
  destruct (dict_get al a0) as [target|] eqn:G0; [|now apply Step].
  destruct (py_eq target key) eqn:E; simpl in S; [now apply Step|].
  injection S as <- <-. split; [now left|]. split; assumption.
Qed.

Lemma register_collides (key : PyVal) (l : list PyVal) :
  forall al a t,
  In a l -> dict_get al a = Some t -> py_eq t key = false ->
  exists a' t', fst (register key l al) = Some (a', t').
Proof.
  induction l as [|a0 l IH]; intros al a t I G E; [destruct I|]. simpl.
  destruct (dict_get al a0) as [target|] eqn:G0.
  - destruct (py_eq target key) eqn:E0; simpl; [|eauto].
    destruct (key_eq a0 a) eqn:Ea.
    + rewrite (dict_get_cong al a0 a Ea), G in G0. congruence.
    + destruct I as [->|I]; [rewrite py_eq_refl in Ea; discriminate|].
      apply (IH _ a t I); [|assumption]. now rewrite dict_get_set_other.
  - destruct (key_eq a0 a) eqn:Ea.
    + rewrite (dict_get_cong al a0 a Ea), G in G0. discriminate.
    + destruct I as [->|I]; [rewrite py_eq_refl in Ea; discriminate|].
      apply (IH _ a t I); [|assumption]. now rewrite dict_get_set_other.
Qed.

(** ** add_alias *)

Lemma register_app (key : PyVal) (l1 l2 : list PyVal) :
  forall al,
  register key (l1 ++ l2)%list al =
  match register key l1 al with
  | (None, al1) => register key l2 al1
  | stopped => stopped
  end.
Proof.
  induction l1 as [|a l1 IH]; intros al; cbn [app register]; [reflexivity|].
  destruct (dict_get al a) as [target|]; [|apply IH].
  destruct (negb (py_eq target key)); [reflexivity|apply IH].
Qed.

Lemma register_fold (key : PyVal) (l : list PyVal) :
  forall al,
  (forall a t, In a l -> dict_get al a = Some t -> py_eq t key = true) ->
  snd (register key l al) = fold_left (fun d a => dict_set d a key) l al.
Proof.
  induction l as [|a l IH]; intros al F; simpl; [reflexivity|].
  assert (Fl : forall a' t, In a' l ->
               dict_get (dict_set al a key) a' = Some t -> py_eq t key = true).
  { intros a' t I. rewrite dict_get_set.
    destruct (key_eq a a').
    - intros [= <-]. apply py_eq_refl.
    - apply F. now right. }
  destruct (dict_get al a) as [target|] eqn:G; [|now apply IH].
  rewrite (F a target (or_introl eq_refl) G). simpl. now apply IH.
Qed.

(** [add_alias] registers, for the key its [name] resolves to, the forms
    derived under the current flag from each alias of its argument, in
    order. *)
Lemma add_alias_rebuild (name : PyVal) (alias : AliasArg)
    (w : World) (its al : dict PyVal PyVal) :
  add_alias name alias (rebuild w its al) =
  match dict_get al name with
  | Some key =>
      let forms := flat_map (name_to_aliases (CleverDict_expand w)) (alias_list alias) in
      (match fst (register key forms al) with
       | None => Ok tt
       | Some (a, target) => Raise (KeyError (MsgAlreadyAlias a target))
       end,
       rebuild w its (snd (register key forms al)))
  | None => (Raise (KeyError (MsgKey name)), rebuild w its al)
  end.
Proof.
  unfold add_alias, bind. rewrite get_key_rebuild.
  destruct (dict_get al name) as [key|]; [|reflexivity].
  cbv zeta. generalize al. clear al.
  induction (alias_list alias) as [|a l IH]; intros al; [reflexivity|].
  cbn [for_each flat_map]. unfold bind, read_expand.
  change (CleverDict_expand (rebuild w its al)) with (CleverDict_expand w).
  rewrite register_loop, register_app.
  destruct (register key (name_to_aliases (CleverDict_expand w) a) al)
    as [[[a' t']|] al1]; cbn [fst snd]; [reflexivity|apply IH].
Qed.





(** ** Collisions *)

(** C4: let the alias [a] resolve to [k1].
    - Registering [a] for another key [k2] raises the KeyError whose text
      names [a] and [k1], and changes nothing: so does [_add_alias], and so
      does [add_alias] on the alias [a] when [k2] is what its [name]
      argument resolves to.
    - [add_alias] on a list of aliases that holds [a], and [__setitem__]
      on a new key [k2] that derives [a], raise the same kind of error,
      naming an alias and the other key it was registered for; the entry
      store is untouched and every alias that resolved before still
      resolves to an equal key.
    - Registering [a] for [k1] again succeeds and changes nothing. *)
Theorem C4_collision_rejected_same_key_noop
    (w : World) (al : dict PyVal PyVal) (a k1 : PyVal)
    (A : aliases_of (self w) = Some al)
    (R : dict_get al a = Some k1) :
  (forall k2, py_eq k1 k2 = false ->
     _add_alias k2 a w = (Raise (KeyError (MsgAlreadyAlias a k1)), w)) /\
  (forall name k2, dict_get al name = Some k2 -> py_eq k1 k2 = false ->
     add_alias name (Scalar a) w = (Raise (KeyError (MsgAlreadyAlias a k1)), w) /\
     forall alias, In a (alias_list alias) ->
       exists a' t' w',
         add_alias name alias w = (Raise (KeyError (MsgAlreadyAlias a' t')), w') /\
         dict_get al a' = Some t' /\ py_eq t' k2 = false /\
         items (self w') = items (self w) /\
         CleverDict_expand w' = CleverDict_expand w /\
         exists al', aliases_of (self w') = Some al' /\
           forall b t, dict_get al b = Some t ->
             exists t0, dict_get al' b = Some t0 /\ py_eq t0 t = true) /\
  (forall k2 v,
     dict_get al k2 = None -> dict_contains (items (self w)) k2 = false ->
     In a (name_to_aliases (CleverDict_expand w) k2) -> py_eq k1 k2 = false ->
     exists a' t' w',
       __setitem__ k2 v w = (Raise (KeyError (MsgAlreadyAlias a' t')), w') /\
       In a' (name_to_aliases (CleverDict_expand w) k2) /\
       dict_get al a' = Some t' /\ py_eq t' k2 = false /\
       items (self w') = items (self w) /\
       CleverDict_expand w' = CleverDict_expand w /\
       exists al', aliases_of (self w') = Some al' /\
         forall b t, dict_get al b = Some t ->
           exists t0, dict_get al' b = Some t0 /\ py_eq t0 t = true) /\
  _add_alias k1 a w = (Ok tt, w).
Proof.
  pose proof (rebuild_id w al A) as Ew.
  split; [|split; [|split]].
  - intros k2 E. rewrite <- Ew at 1. rewrite _add_alias_rebuild, R, E. simpl.
    now rewrite Ew.
  - intros name k2 Rn E. split.
    + rewrite <- Ew at 1. rewrite add_alias_scalar_rebuild, Rn.
      destruct (name_to_aliases_head (CleverDict_expand w) a) as [rest ->].
      simpl. rewrite R, E. simpl. now rewrite Ew.
    + intros alias I.
      set (forms := flat_map (name_to_aliases (CleverDict_expand w)) (alias_list alias)).
      assert (If : In a forms).
      { apply in_flat_map. exists a. split; [exact I|].
        destruct (name_to_aliases_head (CleverDict_expand w) a) as [rest ->].
        now left. }
      destruct (register_collides k2 forms al a k1 If R E) as (a' & t' & S).
      destruct (register_collision k2 forms al a' t' S) as (_ & G' & E').
      exists a', t', (rebuild w (items (self w)) (snd (register k2 forms al))).
      split; [|split; [|split; [|split; [|split]]]];
        try assumption; try reflexivity.
      * rewrite <- Ew at 1. rewrite add_alias_rebuild, Rn. cbv zeta.
        fold forms. rewrite S. reflexivity.
      * eexists. split; [apply aliases_of_rebuild|].
        intros b t G. now apply register_preserves.
  - intros k2 v N C I E.
    destruct (register_collides k2 _ al a k1 I R E) as (a' & t' & S).
    destruct (register_collision k2 _ al a' t' S) as (I' & G' & E').
    exists a', t',
      (rebuild w (items (self w))
         (snd (register k2 (name_to_aliases (CleverDict_expand w) k2) al))).
    split; [|split; [|split; [|split; [|split; [|split]]]]];
      try assumption; try reflexivity.
    + unfold __setitem__. rewrite <- Ew at 1.
      rewrite __setattr___rebuild, N, C. cbn [negb].
      destruct (register k2 (name_to_aliases (CleverDict_expand w) k2) al)
        as [r al'] eqn:Reg.
      cbn [fst] in S. subst r. reflexivity.
    + eexists. split; [apply aliases_of_rebuild|].
      intros b t G. now apply register_preserves.
  - rewrite <- Ew at 1. rewrite _add_alias_rebuild, R, py_eq_refl. simpl.
    now rewrite (dict_set_id al a k1 R), Ew.
Qed.

(** The key [1] holds the aliases the deriver gave it; ["_1"] cannot be
    given to another key, neither directly nor by inserting the key [-1],
    which derives ["_1"] as well. *)
Lemma C4_collision_witness :
  let al := [(VInt 1, VInt 1); (VStr "_1", VInt 1); (VStr "_True", VInt 1);
             (VStr "b", VStr "b")] in
  let w := mkWorld true (mkCleverDict [(VInt 1, VStr "x"); (VStr "b", VStr "y")]
                           [("_aliases", ADict al)]) in
  aliases_of (self w) = Some al /\
  dict_get al (VStr "_1") = Some (VInt 1) /\
  add_alias (VStr "b") (Scalar (VStr "_1")) w
    = (Raise (KeyError (MsgAlreadyAlias (VStr "_1") (VInt 1))), w) /\
  (exists a' t' w',
     __setitem__ (VInt (-1)) (VStr "z") w
       = (Raise (KeyError (MsgAlreadyAlias a' t')), w') /\
     items (self w') = items (self w)) /\
  _add_alias (VInt 1) (VStr "_1") w = (Ok tt, w).
Proof.
  intros al w. split; [reflexivity|]. split; [reflexivity|].
  destruct (C4_collision_rejected_same_key_noop w al (VStr "_1") (VInt 1)
              eq_refl eq_refl) as (_ & Add & Ins & Same).
  split; [|split].
  - apply (Add (VStr "b") (VStr "b")); reflexivity.
  - destruct (Ins (VInt (-1)) (VStr "z")) as (a' & t' & w' & Run & _ & _ & _ & Its & _).
    + reflexivity.
    + reflexivity.
    + right. left. reflexivity.
    + reflexivity.
    + exists a', t', w'. split; [exact Run|exact Its].
  - exact Same.
Defined.

(** ** Item access through aliases *)

(** C6 (as amended): let [k] be either a new key, neither registered nor
    stored, set while expansion is enabled, with none of its derived
    aliases registered for another key; or a name that is registered
    together with all the aliases derived from it under expansion for one
    key.  Then [set(k, v)] succeeds, and reading through [k] or through
    any alias derived from [k] returns [v]; the alias resolves to the key
    that [k] resolves to (to [k] itself when [k] was new).  A later write
    through such an alias lands on the same entry: the keys of the entry
    store and the alias index stay as they are, and [k] and the alias both
    read the new value. *)
Theorem C6_derived_aliases_read_and_write_the_entry
    (w : World) (al : dict PyVal PyVal) (k v : PyVal)
    (A : aliases_of (self w) = Some al)
    (H : (CleverDict_expand w = true /\
          dict_get al k = None /\
          dict_contains (items (self w)) k = false /\
          (forall a t, In a (name_to_aliases true k) ->
                       dict_get al a = Some t -> py_eq t k = true)) \/
         (exists key, dict_get al k = Some key /\
            forall a, In a (name_to_aliases true k) ->
              exists t, dict_get al a = Some t /\ py_eq t key = true)) :
  exists w1,
    __setitem__ k v w = (Ok tt, w1) /\
    __getitem__ k w1 = (Ok v, w1) /\
    (forall a, In a (name_to_aliases true k) ->
       __getitem__ a w1 = (Ok v, w1) /\
       exists t key,
         get_key a w1 = (Ok t, w1) /\ get_key k w1 = (Ok key, w1) /\
         py_eq t key = true /\
         (dict_get al k = None -> t = k /\ key = k)) /\
    (forall a v', In a (name_to_aliases true k) ->
       exists w2,
         __setitem__ a v' w1 = (Ok tt, w2) /\
         dict_keys (items (self w2)) = dict_keys (items (self w1)) /\
         aliases_of (self w2) = aliases_of (self w1) /\
         __getitem__ k w2 = (Ok v', w2) /\
         __getitem__ a w2 = (Ok v', w2)).
Proof.
  pose proof (rebuild_id w al A) as Ew.
  destruct (name_to_aliases_head true k) as [rest Hd].
  assert (Ik : In k (name_to_aliases true k)) by (rewrite Hd; now left).
  set (its := items (self w)) in *.
  (* both cases end in a state where [k] and its derived aliases are
     registered for keys equal to the key [key] that was written *)
  assert (After : exists key al1,
            __setitem__ k v w = (Ok tt, rebuild w (dict_set its key v) al1) /\
            dict_get al1 k = Some key /\
            (forall a, In a (name_to_aliases true k) ->
               exists t, dict_get al1 a = Some t /\ py_eq t key = true /\
                         (dict_get al k = None -> t = k /\ key = k))).
  { destruct H as [(E & N & C & F)|(key & Gk & All)].
    - pose proof (register_succeeds k _ al F) as S.
      pose proof (register_registers k _ al S) as G.
      exists k, (snd (register k (name_to_aliases true k) al)).
      split; [|split].
      + unfold __setitem__. rewrite <- Ew at 1.
        rewrite __setattr___rebuild, N. fold its. rewrite C, E. cbn [negb].
        destruct (register k (name_to_aliases true k) al) as [r al'] eqn:Reg.
        cbn [fst] in S. subst r. reflexivity.
      + exact (G k Ik).
      + intros a I. exists k. split; [exact (G a I)|]. split; [apply py_eq_refl|].
        intros _. now split.
    - exists key, al. split; [|split].
      + unfold __setitem__. rewrite <- Ew at 1.
        rewrite __setattr___rebuild, Gk. reflexivity.
      + exact Gk.
      + intros a I. destruct (All a I) as (t & Ga & Et).
        exists t. split; [exact Ga|]. split; [exact Et|].
        intros N. rewrite N in Gk. discriminate Gk. }
  destruct After as (key & al1 & Run & Gk & G).
  set (its1 := dict_set its key v) in *.
  assert (Get : forall its' x a, dict_get its' key = Some x ->
                In a (name_to_aliases true k) ->
                __getitem__ a (rebuild w its' al1) = (Ok x, rebuild w its' al1)).
  { intros its' x a Gx I. destruct (G a I) as (t & Ga & Et & _).
    rewrite __getitem___rebuild, Ga.
    rewrite (dict_get_cong (H:=PyKey_PyVal) its' t key Et), Gx. reflexivity. }
  assert (Gv : dict_get its1 key = Some v).
  { apply dict_get_set_same, py_eq_refl. }
  exists (rebuild w its1 al1).
  split; [exact Run|]. split; [now apply Get|]. split.
  - intros a I. split; [now apply Get|].
    destruct (G a I) as (t & Ga & Et & New).
    exists t, key. rewrite !get_key_rebuild, Ga, Gk.
    split; [reflexivity|]. split; [reflexivity|]. split; [exact Et|exact New].
  - intros a v' I. destruct (G a I) as (t & Ga & Et & _).
    exists (rebuild w (dict_set its1 t v') al1).
    assert (Gv' : dict_get (dict_set its1 t v') key = Some v').
    { now apply dict_get_set_same. }
    split; [|split; [|split; [|split]]].
    + unfold __setitem__. rewrite __setattr___rebuild, Ga. reflexivity.
    + cbn [items self rebuild]. apply dict_keys_set_present.
      unfold dict_contains. rewrite (dict_get_cong (H:=PyKey_PyVal) its1 t key Et), Gv. reflexivity.
    + now rewrite !aliases_of_rebuild.
    + now apply Get.
    + now apply Get.
Qed.

(** On the empty container, [set("two words", 5)] makes ["two_words"] read
    5, and writing 6 through ["two_words"] keeps the single key.  In the
    state reached, ["two words"] and its alias are registered for one key,
    and setting ["two words"] again makes the alias read the new value. *)
Lemma C6_two_words_witness :
  let w := mkWorld true (mkCleverDict [] [("_aliases", ADict [])]) in
  aliases_of (self w) = Some [] /\
  CleverDict_expand w = true /\
  exists w1,
    __setitem__ (VStr "two words") (VInt 5) w = (Ok tt, w1) /\
    __getitem__ (VStr "two_words") w1 = (Ok (VInt 5), w1) /\
    (exists w2,
       __setitem__ (VStr "two_words") (VInt 6) w1 = (Ok tt, w2) /\
       dict_keys (items (self w2)) = dict_keys (items (self w1)) /\
       __getitem__ (VStr "two words") w2 = (Ok (VInt 6), w2)) /\
    (exists w3,
       __setitem__ (VStr "two words") (VInt 7) w1 = (Ok tt, w3) /\
       __getitem__ (VStr "two_words") w3 = (Ok (VInt 7), w3)).
Proof.
  intros w. split; [reflexivity|]. split; [reflexivity|].
  assert (I : In (VStr "two_words") (name_to_aliases true (VStr "two words"))).
  { right. left. reflexivity. }
  destruct (C6_derived_aliases_read_and_write_the_entry
              w [] (VStr "two words") (VInt 5) eq_refl)
    as (w1 & Run & _ & Read & Write).
  { left. split; [reflexivity|]. split; [reflexivity|]. split; [reflexivity|].
    intros a t _ G. discriminate G. }
  exists w1. split; [exact Run|].
  split; [exact (proj1 (Read _ I))|]. split.
  - destruct (Write (VStr "two_words") (VInt 6) I) as (w2 & Run2 & Keys & _ & Rk & _).
    exists w2. split; [exact Run2|]. split; [exact Keys|exact Rk].
  - injection Run as <-.
    destruct (C6_derived_aliases_read_and_write_the_entry
                (snd (__setitem__ (VStr "two words") (VInt 5) w))
                [(VStr "two words", VStr "two words");
                 (VStr "two_words", VStr "two words")]
                (VStr "two words") (VInt 7) eq_refl)
      as (w3 & Run3 & _ & Read3 & _).
    { right. exists (VStr "two words"). split; [reflexivity|].
      intros a [<-|[<-|[]]]; exists (VStr "two words"); now split. }
    exists w3. split; [exact Run3|exact (proj1 (Read3 _ I))].
Defined.

(** C6 (as stated) fails for a key that is registered without its derived
    aliases.  On the empty container the key 1 is set while expansion is
    disabled; afterwards, with expansion enabled, [set(1, "y")] succeeds
    and ["_1"], an alias derived from 1 under expansion, does not read:
    [get("_1")] raises KeyError, and a write through ["_1"] creates a
    second entry.  And where a derived alias is registered for another
    key, [set] itself raises: after [set("_1", "a")], [set(1, "b")] raises
    KeyError and [get(1)] raises KeyError too. *)
Lemma C6_key_set_without_expansion_has_no_alias :
  let w0 := mkWorld true (mkCleverDict [] [("_aliases", ADict [])]) in
  let w := snd (with_expand false (__setitem__ (VInt 1) (VStr "x")) w0) in
  let w1 := snd (__setitem__ (VInt 1) (VStr "y") w) in
  let w2 := snd (__setitem__ (VStr "_1") (VStr "z") w1) in
  let u := snd (__setitem__ (VStr "_1") (VStr "a") w0) in
  let u1 := snd (__setitem__ (VInt 1) (VStr "b") u) in
  CleverDict_new true [] None [] [] = (Ok (self w0), true) /\
  (CleverDict_expand w = true /\
   __setitem__ (VInt 1) (VStr "y") w = (Ok tt, w1) /\
   In (VStr "_1") (name_to_aliases true (VInt 1)) /\
   __getitem__ (VInt 1) w1 = (Ok (VStr "y"), w1) /\
   __getitem__ (VStr "_1") w1 = (Raise (KeyError (MsgKey (VStr "_1"))), w1) /\
   __setitem__ (VStr "_1") (VStr "z") w1 = (Ok tt, w2) /\
   dict_keys (items (self w1)) = [VInt 1] /\
   dict_keys (items (self w2)) = [VInt 1; VStr "_1"]) /\
  (CleverDict_expand u = true /\
   __setitem__ (VInt 1) (VStr "b") u
     = (Raise (KeyError (MsgAlreadyAlias (VStr "_1") (VStr "_1"))), u1) /\
   __getitem__ (VInt 1) u1 = (Raise (KeyError (MsgKey (VInt 1))), u1)).
Proof.
  cbv zeta. split; [reflexivity|]. split.
  - split; [reflexivity|]. split; [reflexivity|].
    split; [right; left; reflexivity|]. repeat split.
  - repeat split.
Qed.

(** ** Deletion *)

Section DictDeletion.
Context {K V : Type} `{PyKeyLaws K}.
Implicit Types (d pre suf : dict K V).

Lemma dict_get_app_none pre suf k :
  dict_get (pre ++ suf)%list k = None -> dict_get pre k = None.
Proof.
  induction pre as [|[k0 v0] pre IH]; simpl; [reflexivity|].
  destruct (key_eq k0 k); [discriminate|assumption].
Qed.

Lemma dict_del_middle pre suf k v :
  dict_wf (pre ++ (k, v) :: suf)%list = true ->
  dict_del (pre ++ (k, v) :: suf)%list k = Some (pre ++ suf)%list.
Proof.
  induction pre as [|[k0 v0] pre IH]; simpl; intros W.
  - now rewrite key_eq_refl.
  - apply andb_true_iff in W as [W1 W2]. apply negb_true_iff in W1.
    destruct (key_eq k0 k) eqn:E.
    + rewrite (dict_contains_cong _ k0 k E) in W1.
      rewrite (dict_In_contains _ k v) in W1; [discriminate|].
      apply in_or_app. right. now left.
    + now rewrite (IH W2).
Qed.

Lemma dict_wf_drop_middle pre suf k v :
  dict_wf (pre ++ (k, v) :: suf)%list = true -> dict_wf (pre ++ suf)%list = true.
Proof.
  intros W. eapply dict_wf_del; [exact W|]. now apply dict_del_middle.
Qed.

Lemma dict_get_filter (p : V -> bool) d k :
  dict_wf d = true ->
  dict_get (filter (fun kv => p (snd kv)) d) k =
  match dict_get d k with
  | Some v => if p v then Some v else None
  | None => None
  end.
Proof.
  induction d as [|[k0 v0] d IH]; simpl; intros W; [reflexivity|].
  apply andb_true_iff in W as [W1 W2]. apply negb_true_iff in W1.
  specialize (IH W2).
  destruct (p v0) eqn:P; simpl.
  - destruct (key_eq k0 k); [now rewrite ?P|assumption].
  - destruct (key_eq k0 k) eqn:E; [|assumption].
    rewrite IH, ?P. unfold dict_contains in W1.
    rewrite <- (dict_get_cong d k0 k E).
    now destruct (dict_get d k0).
Qed.
End DictDeletion.

(** The loop of [__delitem__] over the snapshot of the alias index
    removes the aliases whose target is the deleted key and no other. *)
Lemma purge_loop (key : PyVal) (w : World) (its : dict PyVal PyVal) :
  forall (suf pre : dict PyVal PyVal),
  dict_wf (pre ++ suf)%list = true ->
  for_each suf (fun '(ak, av) => if py_eq av key then del_alias ak else ret tt)
           (rebuild w its (pre ++ suf)%list) =
  (Ok tt, rebuild w its
            (pre ++ filter (fun kv => negb (py_eq (snd kv) key)) suf)%list).
Proof.
  induction suf as [|[ak av] suf IH]; intros pre W; [reflexivity|].
  cbn [for_each filter snd]. unfold bind.
  destruct (py_eq av key); cbn [negb].
  - unfold del_alias, bind. rewrite read_aliases_rebuild.
    rewrite (dict_del_middle pre suf ak av W), write_aliases_rebuild.
    apply IH. eapply dict_wf_drop_middle; exact W.
  - unfold ret at 1.
    replace (pre ++ (ak, av) :: suf)%list with ((pre ++ [(ak, av)]) ++ suf)%list
      by (now rewrite <- app_assoc).
    rewrite IH by (now rewrite <- app_assoc).
    now rewrite <- app_assoc.
Qed.

Lemma __delitem___rebuild (name : PyVal) (w : World) (its al : dict PyVal PyVal) :
  dict_wf al = true ->
  __delitem__ name (rebuild w its al) =
  match dict_get al name with
  | Some key =>
      match dict_del its key with
      | Some its' =>
          (Ok tt, rebuild w its' (filter (fun kv => negb (py_eq (snd kv) key)) al))
      | None => (Raise (KeyError (MsgKey key)), rebuild w its al)
      end
  | None => (Raise (KeyError (MsgKey name)), rebuild w its al)
  end.
Proof.
  intros W. unfold __delitem__, bind. rewrite get_key_rebuild.
  destruct (dict_get al name) as [key|]; [|reflexivity].
  unfold super__delitem__, bind, read_items.
  change (items (self (rebuild w its al))) with its.
  destruct (dict_del its key) as [its'|]; [|reflexivity].
  rewrite write_items_rebuild, read_aliases_rebuild.
  apply (purge_loop key w its' al []). exact W.
Qed.



(** ** The alias deriver *)

Example aliases_of_two_words :
  name_to_aliases true (VStr "two words") = [VStr "two words"; VStr "two_words"].
Proof. reflexivity. Qed.

Example aliases_of_123 :
  name_to_aliases true (VInt 123) = [VInt 123; VStr "_123"].
Proof. reflexivity. Qed.

Example aliases_of_True :
  name_to_aliases true (VBool true) = [VBool true; VStr "_1"; VStr "_True"].
Proof. reflexivity. Qed.

Example aliases_of_zero :
  name_to_aliases true (VInt 0) = [VInt 0; VStr "_0"; VStr "_False"].
Proof. reflexivity. Qed.

(** [hash(-1)] is -2, so -1 takes the text branch: ["-1"] is normalized. *)
Example aliases_of_minus_one :
  name_to_aliases true (VInt (-1)) = [VInt (-1); VStr "_1"].
Proof. reflexivity. Qed.

Example aliases_of_None :
  name_to_aliases true VNone = [VNone; VStr "_None"].
Proof. reflexivity. Qed.

Example aliases_of_keyword :
  name_to_aliases true (VStr "class") = [VStr "class"; VStr "_class"].
Proof. reflexivity. Qed.

Example aliases_of_digit_start :
  name_to_aliases true (VStr "1st place") = [VStr "1st place"; VStr "_1st_place"].
Proof. reflexivity. Qed.

Example aliases_of_identifier :
  name_to_aliases true (VStr "total") = [VStr "total"].
Proof. reflexivity. Qed.

(** Which integers equal their own hash: all but -1 below the modulus. *)
Lemma eq_own_hash_int (z : Z) :
  eq_own_hash (VInt z) = true <->
  z <> -1 /\ - PyHASH_MODULUS < z < PyHASH_MODULUS.
Proof.
  unfold eq_own_hash, py_num, int_hash.
  assert (P : PyHASH_MODULUS = 2305843009213693951) by reflexivity.
  pose proof (Z.mod_pos_bound (Z.abs z) PyHASH_MODULUS ltac:(lia)) as B.
  destruct (Z.abs z <? PyHASH_MODULUS) eqn:Small.
  - apply Z.ltb_lt in Small. rewrite (Z.mod_small _ _ (conj (Z.abs_nonneg z) Small)).
    replace (Z.sgn z * Z.abs z) with z by (rewrite Z.mul_comm; symmetry; apply Z.abs_sgn).
    destruct (z =? -1) eqn:M.
    + apply Z.eqb_eq in M. subst z. split; [discriminate|lia].
    + apply Z.eqb_neq in M. rewrite Z.eqb_refl. split; [lia|reflexivity].
  - apply Z.ltb_ge in Small.
    set (m := Z.abs z mod PyHASH_MODULUS) in *.
    assert (Far : Z.sgn z * m <> z /\ z <> -2).
    { destruct (Z.sgn_spec z) as [[? ->]|[[? ->]|[? ->]]]; lia. }
    destruct (Z.sgn z * m =? -1); split; intros Q;
      try (apply Z.eqb_eq in Q); lia.
Qed.

(** ** The decimal numeral of an integer *)












(** ** Integer-like keys *)

(** On a scalar the deriver for objects is [name_to_aliases]. *)
Lemma object_name_to_aliases_scalar (expand : bool) (v : PyVal) :
  object_name_to_aliases expand (OScalar v)
  = Some (map OScalar (name_to_aliases expand v)).
Proof.
  unfold object_name_to_aliases, name_to_aliases, list_append.
  cbn [object_eq_own_hash object_int object_in_0_1 object_bool object_str
       object_differs_from_own_str].
  destruct expand; [|reflexivity].
  destruct (eq_own_hash v).
  - destruct (py_in v [VInt 0; VInt 1]); reflexivity.
  - destruct (negb (py_eq v (VStr (py_str v))) && isidentifier (py_str v)
              && negb (iskeyword (py_str v)))%bool;
      destruct (negb (String.eqb (py_str v) (norm_name_of (py_str v))));
      reflexivity.
Qed.

(** A complex number with a zero imaginary part and an integral real
    part other than -1 equals its own hash, and [int] refuses it. *)
Lemma complex_key_is_refused (re : Z) :
  re <> -1 -> - 2 ^ 53 < re < 2 ^ 53 ->
  object_eq_own_hash (OComplex re 0) = true /\
  object_name_to_aliases true (OComplex re 0) = None /\
  object_name_to_aliases false (OComplex re 0) = Some [OComplex re 0].
Proof.
  intros M B.
  assert (Own : object_eq_own_hash (OComplex re 0) = true).
  { cbn [object_eq_own_hash]. unfold complex_eq_int, complex_hash.
    assert (Hr : int_hash re = re).
    { pose proof (proj2 (eq_own_hash_int re)) as Q. unfold eq_own_hash in Q.
      cbn [py_num] in Q. symmetry. apply Z.eqb_eq, Q.
      split; [exact M|]. unfold PyHASH_MODULUS. lia. }
    rewrite Hr. change (int_hash 0) with 0. unfold _PyHASH_IMAG.
    replace (re + 1000003 * 0) with re by lia.
    assert (Wrap : as_Py_hash_t re = re).
    { unfold as_Py_hash_t. cbv zeta.
      destruct (Z.neg_nonneg_cases re) as [Neg|Pos].
      - rewrite <- (Z.mod_unique re (2 ^ 64) (-1) (re + 2 ^ 64)) by lia.
        destruct (re + 2 ^ 64 <? 2 ^ 63) eqn:L; [apply Z.ltb_lt in L|]; lia.
      - rewrite Z.mod_small by lia.
        destruct (re <? 2 ^ 63) eqn:L; [reflexivity|apply Z.ltb_ge in L; lia]. }
    rewrite Wrap. apply Z.eqb_neq in M. rewrite M, !Z.eqb_refl. reflexivity. }
  split; [exact Own|]. split; [|reflexivity].
  unfold object_name_to_aliases. rewrite Own. reflexivity.
Qed.




Lemma substring_A (i : nat) : substring 0 (S i) "A" = "A".
Proof. now destruct i. Qed.

(** From the second character on, the generator tests the characters
    for being legal inside an identifier. *)
Lemma replace_illegal_continue (r : string) :
  forall i, replace_illegal (S i) r =
            string_map (legal_or_underscore is_identifier_continue) r.
Proof.
  induction r as [|ch r IH]; intros i; [reflexivity|].
  cbn [replace_illegal string_map]. rewrite IH, substring_A.
  unfold legal_or_underscore. cbn [String.append isidentifier string_forallb].
  replace (is_identifier_start "A") with true by reflexivity.
  now rewrite andb_true_r.
Qed.

(** The generator of the source computes the normalized identifier form
    of the specification. *)
Lemma norm_name_of_spec (s : string) :
  norm_name_of s = normalized_identifier_form s.
Proof.
  unfold norm_name_of, normalized_identifier_form.
  replace (String.eqb s "" || first_isdigit s || iskeyword s)%bool
    with (needs_prefix s) by (now destruct s).
  change ("_" ++ s) with (String "_" s).
  destruct (if needs_prefix s then String "_" s else s) as [|c r]; [reflexivity|].
  cbn [replace_illegal]. rewrite replace_illegal_continue.
  unfold legal_or_underscore.
  cbn [substring String.append isidentifier string_forallb].
  now rewrite andb_true_r.
Qed.

(** C9: with expansion enabled, the aliases of a text key are the key
    and, exactly when it differs from the key, its normalized identifier
    form; the source computes that form as the specification describes
    it.  On the empty container, [set("two words", 5)] registers
    ["two_words"], and [get("two_words")] returns 5. *)
Theorem C9_text_key_normalized_alias (s : string) :
  norm_name_of s = normalized_identifier_form s /\
  name_to_aliases true (VStr s) =
    VStr s :: (if String.eqb s (normalized_identifier_form s) then []
               else [VStr (normalized_identifier_form s)]) /\
  normalized_identifier_form "two words" = "two_words" /\
  exists w',
    __setitem__ (VStr "two words") (VInt 5)
      (mkWorld true (mkCleverDict [] [("_aliases", ADict [])])) = (Ok tt, w') /\
    aliases_of (self w')
      = Some [(VStr "two words", VStr "two words");
              (VStr "two_words", VStr "two words")] /\
    get_key (VStr "two_words") w' = (Ok (VStr "two words"), w') /\
    __getitem__ (VStr "two_words") w' = (Ok (VInt 5), w').
Proof.
  split; [apply norm_name_of_spec|]. split.
  - unfold name_to_aliases.
    replace (eq_own_hash (VStr s)) with false by reflexivity.
    cbn [py_str]. rewrite norm_name_of_spec.
    replace (py_eq (VStr s) (VStr s)) with true by (symmetry; apply py_eq_refl).
    cbn [negb andb]. unfold list_append.
    now destruct (String.eqb s (normalized_identifier_form s)).
  - split; [reflexivity|]. eexists. repeat split.
Qed.

(** ** The scoped override of the expansion flag *)

(** C7: [with expand(ok): body] runs [body] with the flag set to [ok],
    returns what [body] returns or raises what it raises, and leaves the
    flag as it was before the statement, whatever the outcome.  After an
    inner scope the flag reads what the outer scope had set.  On the empty
    container, [set(123, "x")] inside [with expand(False)] registers the
    key alone and ["_123"] does not resolve; under the default flag it
    registers ["_123"] as well. *)
Theorem C7_expand_scope_sets_and_restores
    (A : Type) (ok : bool) (body : M A) (w : World) :
  fst (with_expand ok read_expand w) = Ok ok /\
  fst (with_expand ok body w) = fst (body (write_expand ok w)) /\
  self (snd (with_expand ok body w)) = self (snd (body (write_expand ok w))) /\
  CleverDict_expand (snd (with_expand ok body w)) = CleverDict_expand w /\
  (forall e : Exn, with_expand ok (@raise A e) w = (Raise e, w)) /\
  (forall inner : bool,
     fst (with_expand ok (with_expand inner body ;; read_expand) w) =
     match fst (body (write_expand inner w)) with
     | Ok _ => Ok ok
     | Raise e => Raise e
     end /\
     CleverDict_expand
       (snd (with_expand ok (with_expand inner body ;; read_expand) w))
     = CleverDict_expand w) /\
  (let empty := mkWorld true (mkCleverDict [] [("_aliases", ADict [])]) in
   let inside := mkWorld true (mkCleverDict [(VInt 123, VStr "x")]
                   [("_aliases", ADict [(VInt 123, VInt 123)])]) in
   let outside := mkWorld true (mkCleverDict [(VInt 123, VStr "x")]
                   [("_aliases", ADict [(VInt 123, VInt 123);
                                        (VStr "_123", VInt 123)])]) in
   with_expand false (__setitem__ (VInt 123) (VStr "x")) empty = (Ok tt, inside) /\
   get_key (VStr "_123") inside
     = (Raise (KeyError (MsgKey (VStr "_123"))), inside) /\
   __setitem__ (VInt 123) (VStr "x") empty = (Ok tt, outside) /\
   get_key (VStr "_123") outside = (Ok (VInt 123), outside)).
Proof.
  unfold with_expand, bind, expand__enter__, expand__exit__, try_finally, read_expand.
  cbn [fst snd]. destruct w as [f c]. unfold write_expand. cbn [CleverDict_expand self].
  split; [reflexivity|].
  split; [now destruct (body (mkWorld ok c))|].
  split; [now destruct (body (mkWorld ok c))|].
  split; [now destruct (body (mkWorld ok c))|].
  split; [reflexivity|].
  split; [|repeat split].
  intros inner.
  destruct (body (mkWorld inner c)) as [[r|e] [f' c']]; split; reflexivity.
Qed.

(** ** Invariant I1 and delete_alias *)

Lemma I1b_spec (c : CleverDict) : I1b c = true <-> I1 c.
Proof.
  unfold I1b, I1. destruct (aliases_of c) as [al|].
  - rewrite forallb_forall. split.
    + intros F. exists al. split; [reflexivity|]. intros k C.
      unfold dict_contains in C.
      destruct (dict_get (items c) k) as [v|] eqn:G; [|discriminate].
      destruct (dict_get_In _ k v G) as (k0 & I & E).
      specialize (F k0 (in_map fst _ _ I)).
      rewrite <- (dict_get_cong al k0 k E).
      destruct (dict_get al k0) as [t|]; [|discriminate].
      exists t. split; [reflexivity|]. now apply (py_eq_trans _ _ _ F).
    + intros (al' & [= <-] & F) k0 I.
      apply in_map_iff in I as ([k1 v] & <- & I). cbn [fst].
      destruct (F k1 (dict_In_contains _ k1 v I)) as (t & -> & E). exact E.
  - split; [discriminate|]. intros (al & Q & _). discriminate.
Qed.

(** C2 fails on [delete_alias]: starting from the empty container under
    the default flag, the keys ["x"] and ["_1"] are inserted and the alias
    [1] is added to ["_1"], which leaves I1 in force.  Deleting the alias
    [1] then cascades over the forms derived from [1], among them
    ["_1"]: only the first key of the alias index is spared, so the
    self-mapping of the canonical key ["_1"] is removed.  I1 no longer
    holds, and reading the stored key ["_1"] raises KeyError. *)
Theorem C2_delete_alias_removes_key_self_mapping :
  let empty := mkWorld true (mkCleverDict [] [("_aliases", ADict [])]) in
  let before :=
    mkWorld true
      (mkCleverDict [(VStr "x", VInt 0); (VStr "_1", VInt 9)]
         [("_aliases", ADict [(VStr "x", VStr "x"); (VStr "_1", VStr "_1");
                              (VInt 1, VStr "_1"); (VStr "_True", VStr "_1")])]) in
  let after :=
    mkWorld true
      (mkCleverDict [(VStr "x", VInt 0); (VStr "_1", VInt 9)]
         [("_aliases", ADict [(VStr "x", VStr "x")])]) in
  (__setitem__ (VStr "x") (VInt 0) ;;
   __setitem__ (VStr "_1") (VInt 9) ;;
   add_alias (VStr "_1") (Scalar (VInt 1))) empty = (Ok tt, before) /\
  I1 (self before) /\
  delete_alias (Scalar (VInt 1)) before = (Ok tt, after) /\
  dict_contains (items (self after)) (VStr "_1") = true /\
  ~ I1 (self after) /\
  __getitem__ (VStr "_1") after = (Raise (KeyError (MsgKey (VStr "_1"))), after).
Proof.
  intros empty before after.
  split; [reflexivity|]. split; [now apply I1b_spec|].
  split; [reflexivity|]. split; [reflexivity|]. split; [|reflexivity].
  intros Q. apply I1b_spec in Q. discriminate Q.
Qed.

(** ** Where I1 is kept *)

(** The other methods keep I1, and so does [delete_alias] while expansion
    is disabled: the cascade of [delete_alias] is the one place where a
    self-mapping is lost. *)

Lemma I1_rebuild (w : World) (its al : dict PyVal PyVal) :
  I1 (self (rebuild w its al)) <->
  forall k, dict_contains its k = true ->
    exists t, dict_get al k = Some t /\ py_eq t k = true.
Proof.
  unfold I1. rewrite aliases_of_rebuild. cbn [items self rebuild]. split.
  - intros (al0 & [= <-] & F). exact F.
  - intros F. exists al. split; [reflexivity|exact F].
Qed.

Lemma I1_world (w : World) (al : dict PyVal PyVal) :
  aliases_of (self w) = Some al ->
  I1 (self w) ->
  forall k, dict_contains (items (self w)) k = true ->
    exists t, dict_get al k = Some t /\ py_eq t k = true.
Proof.
  intros A (al0 & A0 & F). rewrite A in A0. injection A0 as <-. exact F.
Qed.

Lemma py_in_keys (x : PyVal) (d : dict PyVal PyVal) :
  py_in x (dict_keys d) = dict_contains d x.
Proof.
  unfold py_in, dict_keys, dict_contains.
  induction d as [|[k v] d IH]; [reflexivity|].
  cbn [map fst existsb dict_get]. rewrite IH.
  change (py_eq k x) with (key_eq k x). now destruct (key_eq k x).
Qed.

Lemma py_in_tl (x : PyVal) (l : list PyVal) :
  py_in x l = false -> py_in x (tl l) = false.
Proof.
  destruct l as [|y l]; [trivial|]. unfold py_in. cbn [existsb tl].
  now intros [_ E]%orb_false_iff.
Qed.

Lemma __setitem___keeps_I1 (name value : PyVal) (w : World) (al : dict PyVal PyVal) :
  aliases_of (self w) = Some al ->
  (forall x t, dict_get al x = Some t -> dict_contains (items (self w)) t = true) ->
  I1 (self w) ->
  I1 (self (snd (__setitem__ name value w))).
Proof.
  intros A I2 Inv. pose proof (I1_world w al A Inv) as F.
  unfold __setitem__. rewrite <- (rebuild_id w al A) at 1.
  rewrite __setattr___rebuild.
  set (its := items (self w)) in *.
  assert (Present : forall key, dict_contains its key = true ->
            forall k, dict_contains (dict_set its key value) k = true ->
            exists t, dict_get al k = Some t /\ py_eq t k = true).
  { intros key C k. rewrite dict_contains_set.
    destruct (key_eq key k) eqn:E; [|apply F].
    intros _. apply F. now rewrite <- (dict_contains_cong its key k E). }
  destruct (dict_get al name) as [key|] eqn:G.
  - apply I1_rebuild, (Present key), (I2 name key G).
  - destruct (dict_contains its name) eqn:C; cbn [negb].
    + now apply I1_rebuild, (Present name).
    + destruct (register name (name_to_aliases (CleverDict_expand w) name) al)
        as [[[a t]|] al'] eqn:Reg; cbn [snd]; apply I1_rebuild.
      * intros k Ck. destruct (F k Ck) as (t0 & G0 & E0).
        destruct (register_preserves name (name_to_aliases (CleverDict_expand w) name)
                    al k t0 G0) as (t' & G' & E').
        rewrite Reg in G'. exists t'. split; [exact G'|].
        exact (py_eq_trans _ _ _ E' E0).
      * intros k. rewrite dict_contains_set.
        destruct (key_eq name k) eqn:E.
        -- intros _. exists name. split; [|exact E].
           rewrite <- (dict_get_cong al' name k E).
           destruct (name_to_aliases_head (CleverDict_expand w) name) as [rest Hd].
           pose proof (register_registers name
                         (name_to_aliases (CleverDict_expand w) name) al) as Rr.
           rewrite Reg in Rr. apply (Rr eq_refl). rewrite Hd. now left.
        -- intros Ck. destruct (F k Ck) as (t0 & G0 & E0).
           destruct (register_preserves name
                       (name_to_aliases (CleverDict_expand w) name)
                       al k t0 G0) as (t' & G' & E').
           rewrite Reg in G'. exists t'. split; [exact G'|].
           exact (py_eq_trans _ _ _ E' E0).
Qed.

Lemma add_alias_keeps_I1 (name : PyVal) (alias : AliasArg)
    (w : World) (al : dict PyVal PyVal) :
  aliases_of (self w) = Some al ->
  I1 (self w) ->
  I1 (self (snd (add_alias name alias w))).
Proof.
  intros A Inv. pose proof (I1_world w al A Inv) as F.
  rewrite <- (rebuild_id w al A) at 1. rewrite add_alias_rebuild.
  destruct (dict_get al name) as [key|]; cbn [snd]; apply I1_rebuild; [|exact F].
  intros k Ck. destruct (F k Ck) as (t0 & G0 & E0).
  destruct (register_preserves key
              (flat_map (name_to_aliases (CleverDict_expand w)) (alias_list alias))
              al k t0 G0) as (t' & G' & E').
  exists t'. split; [exact G'|]. exact (py_eq_trans _ _ _ E' E0).
Qed.

Lemma __delitem___keeps_I1 (key : PyVal) (w : World) (al : dict PyVal PyVal) :
  aliases_of (self w) = Some al ->
  wf_container (self w) = true ->
  I1 (self w) ->
  I1 (self (snd (__delitem__ key w))).
Proof.
  intros A W Inv. pose proof (I1_world w al A Inv) as F.
  destruct (wf_container_parts _ al W A) as (Wi & _ & Wa).
  rewrite <- (rebuild_id w al A) at 1. rewrite (__delitem___rebuild key w _ al Wa).
  destruct (dict_get al key) as [k0|]; cbn [snd]; [|now apply I1_rebuild].
  destruct (dict_del (items (self w)) k0) as [its'|] eqn:D; cbn [snd];
    apply I1_rebuild; [|exact F].
  intros k Ck.
  assert (E : key_eq k0 k = false).
  { destruct (key_eq k0 k) eqn:E; [|reflexivity].
    unfold dict_contains in Ck.
    now rewrite (dict_get_del_same _ its' k0 k Wi D E) in Ck. }
  unfold dict_contains in Ck. rewrite (dict_get_del_other _ its' k0 k D E) in Ck.
  destruct (F k Ck) as (t & G & Et). exists t. split; [|exact Et].
  rewrite (dict_get_filter (fun t => negb (py_eq t k0)) al k Wa), G.
  destruct (py_eq t k0) eqn:E0; [|reflexivity].
  rewrite py_eq_sym in E0.
  change (py_eq k0 k = false) in E. now rewrite (py_eq_trans _ _ _ E0 Et) in E.
Qed.

Lemma delete_alias_disabled_keeps_I1 (a : PyVal) (w : World) (al : dict PyVal PyVal) :
  aliases_of (self w) = Some al ->
  wf_container (self w) = true ->
  CleverDict_expand w = false ->
  I1 (self w) ->
  I1 (self (snd (delete_alias (Scalar a) w))).
Proof.
  intros A W Off Inv. pose proof (I1_world w al A Inv) as F.
  destruct (wf_container_parts _ al W A) as (_ & _ & Wa).
  rewrite <- (rebuild_id w al A) at 1.
  set (its := items (self w)) in *.
  unfold delete_alias. cbn [alias_list for_each]. unfold bind at 1 2.
  rewrite read_aliases_rebuild.
  destruct (dict_contains al a) eqn:Ca; cbn [negb]; [|now apply I1_rebuild].
  unfold bind at 1, read_items at 1.
  change (items (self (rebuild w its al))) with its.
  destruct (dict_contains its a) eqn:Ci; [now apply I1_rebuild|].
  destruct (dict_del_some al a Ca) as [al' D].
  unfold bind at 1, del_alias, bind at 1. rewrite read_aliases_rebuild, D.
  rewrite write_aliases_rebuild.
  unfold bind at 1, read_expand at 1.
  change (CleverDict_expand (rebuild w its al')) with (CleverDict_expand w).
  rewrite Off. cbn [name_to_aliases for_each]. unfold bind at 1 2.
  rewrite read_aliases_rebuild.
  rewrite py_in_tl.
  - cbn [ret snd]. apply I1_rebuild. intros k Ck.
    destruct (F k Ck) as (t & G & Et). exists t. split; [|exact Et].
    rewrite (dict_get_del_other al al' a k D); [exact G|].
    destruct (key_eq a k) eqn:E; [|reflexivity].
    now rewrite (dict_contains_cong its a k E), Ck in Ci.
  - rewrite py_in_keys. unfold dict_contains.
    now rewrite (dict_get_del_same al al' a a Wa D (py_eq_refl a)).
Qed.

(** ** Construction with declared aliases *)


Lemma py_in_In (x : PyVal) (l : list PyVal) : In x l -> py_in x l = true.
Proof.
  intros I. unfold py_in. apply existsb_exists. exists x.
  split; [assumption|apply py_eq_refl].
Qed.





Lemma get_key_indexed (name : PyVal) (w : World) (al : dict PyVal PyVal) :
  aliases_of (self w) = Some al ->
  get_key name w =
  (match dict_get al name with
   | Some key => Ok key
   | None => Raise (KeyError (MsgKey name))
   end, w).
Proof.
  intros A. pose proof (get_key_rebuild name w (items (self w)) al) as Q.
  now rewrite (rebuild_id w al A) in Q.
Qed.

Lemma __getitem___indexed (name : PyVal) (w : World) (al : dict PyVal PyVal) :
  aliases_of (self w) = Some al ->
  __getitem__ name w =
  (match dict_get al name with
   | Some key =>
       match dict_get (items (self w)) key with
       | Some v => Ok v
       | None => Raise (KeyError (MsgKey key))
       end
   | None => Raise (KeyError (MsgKey name))
   end, w).
Proof.
  intros A. pose proof (__getitem___rebuild name w (items (self w)) al) as Q.
  now rewrite (rebuild_id w al A) in Q.
Qed.




(** * Further properties of the code *)

(** ** The normalized form of a text *)

Lemma underscore_starts : is_identifier_start "_" = true.
Proof. reflexivity. Qed.

Lemma underscore_continues : is_identifier_continue "_" = true.
Proof. reflexivity. Qed.

Lemma start_continues (c : ascii) :
  is_identifier_start c = true -> is_identifier_continue c = true.
Proof. unfold is_identifier_continue. now intros ->. Qed.

Lemma start_is_no_digit (c : ascii) :
  is_identifier_start c = true -> char_isdigit c = false.
Proof.
  destruct c as [[] [] [] [] [] [] [] []]; vm_compute; congruence.
Qed.

Lemma legal_or_underscore_legal (legal : ascii -> bool) (c : ascii) :
  legal "_"%char = true -> legal (legal_or_underscore legal c) = true.
Proof.
  intros U. unfold legal_or_underscore. now destruct (legal c) eqn:E.
Qed.

Lemma string_map_legal (legal : ascii -> bool) (r : string) :
  legal "_"%char = true ->
  string_forallb legal (string_map (legal_or_underscore legal) r) = true.
Proof.
  intros U. induction r as [|c r IH]; [reflexivity|].
  cbn [string_map string_forallb]. now rewrite legal_or_underscore_legal, IH.
Qed.

Lemma string_map_legal_id (legal : ascii -> bool) (r : string) :
  string_forallb legal r = true ->
  string_map (legal_or_underscore legal) r = r.
Proof.
  induction r as [|c r IH]; [reflexivity|].
  cbn [string_map string_forallb]. intros [Hc Hr]%andb_true_iff.
  unfold legal_or_underscore at 1. now rewrite Hc, IH.
Qed.

(** A character that the replacement leaves different from an underscore
    was legal and is unchanged. *)
Lemma string_map_no_underscore (legal : ascii -> bool) (r : string) :
  string_forallb (fun c => negb (Ascii.eqb c "_"))
                 (string_map (legal_or_underscore legal) r) = true ->
  string_map (legal_or_underscore legal) r = r.
Proof.
  induction r as [|c r IH]; [reflexivity|].
  cbn [string_map string_forallb]. intros [Hc Hr]%andb_true_iff.
  rewrite (IH Hr). unfold legal_or_underscore in *.
  destruct (legal c); [reflexivity|discriminate].
Qed.

Lemma keyword_has_no_underscore (t : string) :
  iskeyword t = true ->
  string_forallb (fun c => negb (Ascii.eqb c "_")) t = true.
Proof.
  unfold iskeyword. intros (kw & I & E)%existsb_exists.
  apply String.eqb_eq in E. subst kw.
  assert (All : forallb (string_forallb (fun c => negb (Ascii.eqb c "_"))) kwlist = true)
    by reflexivity.
  exact (proj1 (forallb_forall _ _) All t I).
Qed.

Lemma normalized_is_identifier (s : string) :
  isidentifier (normalized_identifier_form s) = true.
Proof.
  unfold normalized_identifier_form.
  destruct (needs_prefix s) eqn:P.
  - cbn [isidentifier]. rewrite legal_or_underscore_legal by reflexivity.
    now rewrite string_map_legal.
  - destruct s as [|c r]; [discriminate P|].
    cbn [isidentifier]. rewrite legal_or_underscore_legal by reflexivity.
    now rewrite string_map_legal.
Qed.

Lemma normalized_is_no_keyword (s : string) :
  iskeyword (normalized_identifier_form s) = false.
Proof.
  destruct (iskeyword (normalized_identifier_form s)) eqn:Kw; [|reflexivity].
  pose proof (keyword_has_no_underscore _ Kw) as NoU.
  unfold normalized_identifier_form in *.
  destruct (needs_prefix s) eqn:P.
  - cbn [string_forallb] in NoU. unfold legal_or_underscore at 1 in NoU.
    rewrite underscore_starts in NoU. discriminate NoU.
  - destruct s as [|c r]; [discriminate P|].
    cbn [string_forallb] in NoU. apply andb_true_iff in NoU as [Hc Hr].
    rewrite (string_map_no_underscore _ r Hr) in Kw.
    unfold legal_or_underscore in Hc, Kw.
    destruct (is_identifier_start c); [|discriminate Hc].
    cbn [needs_prefix] in P. apply orb_false_iff in P as [_ P].
    rewrite P in Kw. discriminate Kw.
Qed.

Lemma identifier_is_normalized (s : string) :
  isidentifier s = true -> iskeyword s = false ->
  normalized_identifier_form s = s.
Proof.
  intros Id Kw. destruct s as [|c r]; [discriminate Id|].
  cbn [isidentifier] in Id. apply andb_true_iff in Id as [Hc Hr].
  unfold normalized_identifier_form. cbn [needs_prefix].
  rewrite (start_is_no_digit c Hc), Kw. cbn [orb].
  unfold legal_or_underscore at 1. now rewrite Hc, string_map_legal_id.
Qed.

Lemma name_to_aliases_text (s : string) :
  name_to_aliases true (VStr s) =
  VStr s :: (if String.eqb s (normalized_identifier_form s) then []
             else [VStr (normalized_identifier_form s)]).
Proof.
  unfold name_to_aliases.
  replace (eq_own_hash (VStr s)) with false by reflexivity.
  cbn [py_str]. rewrite norm_name_of_spec.
  replace (py_eq (VStr s) (VStr s)) with true by (symmetry; apply py_eq_refl).
  cbn [negb andb]. unfold list_append.
  now destruct (String.eqb s (normalized_identifier_form s)).
Qed.

(** X1: whatever the text, the form that [name_to_aliases] computes for
    it is an identifier and not a keyword, so that it can be written as
    an attribute name. *)
Theorem norm_name_is_usable_identifier (s : string) :
  isidentifier (norm_name_of s) = true /\ iskeyword (norm_name_of s) = false.
Proof.
  rewrite norm_name_of_spec. split.
  - apply normalized_is_identifier.
  - apply normalized_is_no_keyword.
Qed.

(** X2: with expansion enabled, a text key derives no alias exactly when
    it is itself an identifier that is not a keyword. *)
Theorem text_key_without_alias_iff_identifier (s : string) :
  name_to_aliases true (VStr s) = [VStr s] <->
  isidentifier s = true /\ iskeyword s = false.
Proof.
  rewrite name_to_aliases_text. split.
  - destruct (String.eqb s (normalized_identifier_form s)) eqn:E; [|discriminate].
    intros _. apply String.eqb_eq in E. rewrite E. split.
    + apply normalized_is_identifier.
    + apply normalized_is_no_keyword.
  - intros [Id Kw]. rewrite (identifier_is_normalized s Id Kw).
    now rewrite String.eqb_refl.
Qed.

(** X3: an alias derived from a text key derives nothing further: the
    deriver applied to it returns the alias alone. *)
Theorem text_key_aliases_are_final (s : string) (a : PyVal) :
  In a (name_to_aliases true (VStr s)) -> a <> VStr s ->
  name_to_aliases true a = [a].
Proof.
  rewrite name_to_aliases_text. intros [<-|I] D; [now contradiction D|].
  destruct (String.eqb s (normalized_identifier_form s)); [destruct I|].
  destruct I as [<-|[]].
  rewrite name_to_aliases_text.
  rewrite (identifier_is_normalized (normalized_identifier_form s)).
  - now rewrite String.eqb_refl.
  - apply normalized_is_identifier.
  - apply normalized_is_no_keyword.
Qed.

Lemma text_key_aliases_are_final_witness :
  In (VStr "two_words") (name_to_aliases true (VStr "two words")) /\
  VStr "two_words" <> VStr "two words" /\
  name_to_aliases true (VStr "two_words") = [VStr "two_words"].
Proof.
  assert (I : In (VStr "two_words") (name_to_aliases true (VStr "two words")))
    by (right; left; reflexivity).
  assert (D : VStr "two_words" <> VStr "two words") by discriminate.
  split; [exact I|]. split; [exact D|].
  exact (text_key_aliases_are_final "two words" (VStr "two_words") I D).
Defined.

(** ** The shape of the derived list *)

Lemma name_to_aliases_shape (expand : bool) (name : PyVal) :
  exists rest,
    name_to_aliases expand name = name :: rest /\
    (List.length rest <= 2)%nat /\
    (forall a, In a rest -> exists t, a = VStr t) /\
    NoDup (map canon (name :: rest)).
Proof.
  unfold name_to_aliases, list_append.
  destruct expand.
  2:{ exists []. repeat split; auto; [intros a []|].
      constructor; [intros []|constructor]. }
  destruct (eq_own_hash name) eqn:H.
  - unfold eq_own_hash in H.
    destruct (py_num name) as [z|] eqn:Num; [|discriminate].
    assert (Cn : canon name = VInt z).
    { destruct name as [x|b|s|]; try discriminate; now injection Num as <-. }
    assert (In01 : py_in name [VInt 0; VInt 1] = ((z =? 0) || (z =? 1))%bool).
    { unfold py_in, existsb, py_eq. rewrite Num. cbn [py_num].
      rewrite (Z.eqb_sym 0 z), (Z.eqb_sym 1 z). now rewrite orb_false_r. }
    rewrite In01. unfold py_int. rewrite Num.
    destruct ((z =? 0) || (z =? 1))%bool eqn:E01; cbn [app].
    + eexists. split; [reflexivity|]. split; [cbn; lia|]. split.
      * intros a [<-|[<-|[]]]; eauto.
      * cbn [map canon]. rewrite Cn.
        assert (Diff : VStr ("_" ++ str_int z) <> VStr ("_" ++ str_bool (py_bool name))).
        { destruct name as [x|b|s|]; cbn [py_num] in Num; try discriminate Num;
            injection Num as <-.
          - apply orb_true_iff in E01 as [E|E]; apply Z.eqb_eq in E; subst x;
              intros Q; vm_compute in Q; discriminate Q.
          - destruct b; intros Q; vm_compute in Q; discriminate Q. }
        constructor; [intros [Q|[Q|[]]]; discriminate Q|].
        constructor; [intros [Q|[]]; now apply Diff|].
        constructor; [intros []|constructor].
    + eexists. split; [reflexivity|]. split; [cbn; lia|]. split.
      * intros a [<-|[]]; eauto.
      * cbn [map canon]. rewrite Cn.
        constructor; [intros [Q|[]]; discriminate Q|].
        constructor; [intros []|constructor].
  - set (str := py_str name).
    set (norm := norm_name_of str).
    assert (Cs : forall t, py_eq name (VStr t) = false -> canon name <> VStr t).
    { intros t E Q. change (VStr t) with (canon (VStr t)) in Q.
      apply py_eq_canon in Q. congruence. }
    assert (Cnorm : String.eqb str norm = false -> canon name <> VStr norm).
    { intros E. destruct name as [x|b|s|]; try discriminate.
      cbn [canon]. intros [= Q]. unfold str in E. cbn [py_str] in E.
      rewrite Q, String.eqb_refl in E. discriminate. }
    destruct (py_eq name (VStr str)) eqn:Conv; cbn [negb andb].
    + destruct (String.eqb str norm) eqn:E; cbn [negb app].
      * exists []. repeat split; auto; [intros a []|].
        constructor; [intros []|constructor].
      * eexists. split; [reflexivity|]. split; [cbn; lia|]. split.
        -- intros a [<-|[]]; eauto.
        -- cbn [map canon].
           constructor; [intros [Q|[]]; symmetry in Q; now apply Cnorm in Q|].
           constructor; [intros []|constructor].
    + destruct (isidentifier str && negb (iskeyword str))%bool;
        destruct (String.eqb str norm) eqn:E; cbn [negb app].
      * eexists. split; [reflexivity|]. split; [cbn; lia|]. split.
        -- intros a [<-|[]]; eauto.
        -- cbn [map canon].
           constructor; [intros [Q|[]]; symmetry in Q; now apply (Cs str) in Q|].
           constructor; [intros []|constructor].
      * eexists. split; [reflexivity|]. split; [cbn; lia|]. split.
        -- intros a [<-|[<-|[]]]; eauto.
        -- cbn [map canon].
           constructor.
           { intros [Q|[Q|[]]]; symmetry in Q;
               [now apply (Cs str) in Q|now apply Cnorm in Q]. }
           constructor.
           { intros [[= Q]|[]]. rewrite Q, String.eqb_refl in E. discriminate. }
           constructor; [intros []|constructor].
      * exists []. repeat split; auto; [intros a []|].
        constructor; [intros []|constructor].
      * eexists. split; [reflexivity|]. split; [cbn; lia|]. split.
        -- intros a [<-|[]]; eauto.
        -- cbn [map canon].
           constructor; [intros [Q|[]]; symmetry in Q; now apply Cnorm in Q|].
           constructor; [intros []|constructor].
Qed.

(** X4: the derived list starts with the key; what follows is at most
    two texts; and no two elements of the list are equal keys, so that
    the registration loop meets every alias once. *)
Theorem derived_list_has_no_repetition (expand : bool) (name : PyVal) :
  exists rest,
    name_to_aliases expand name = name :: rest /\
    (List.length rest <= 2)%nat /\
    (forall a, In a rest -> exists t, a = VStr t) /\
    NoDup (map canon (name :: rest)).
Proof. exact (name_to_aliases_shape expand name). Qed.

(** ** get_aliases *)

Lemma aliases_matching_resolved (name key : PyVal) (w : World)
    (its al : dict PyVal PyVal) :
  dict_get al name = Some key ->
  forall l,
  aliases_matching name l (rebuild w its al) =
  (Ok (dict_keys (filter (fun kv => py_eq (snd kv) key) l)), rebuild w its al).
Proof.
  intros R. induction l as [|[ak av] l IH]; [reflexivity|].
  cbn [aliases_matching filter snd]. unfold bind.
  rewrite get_key_rebuild, R, IH. unfold ret.
  now destruct (py_eq av key).
Qed.

Lemma aliases_matching_unresolved (name : PyVal) (w : World)
    (its al : dict PyVal PyVal) (item : PyVal * PyVal) (l : list (PyVal * PyVal)) :
  dict_get al name = None ->
  aliases_matching name (item :: l) (rebuild w its al) =
  (Raise (KeyError (MsgKey name)), rebuild w its al).
Proof.
  intros N. destruct item as [ak av]. cbn [aliases_matching]. unfold bind.
  now rewrite get_key_rebuild, N.
Qed.

(** X5: for a name that resolves to a key, [get_aliases(name)] returns,
    in the order of registration, the aliases registered for that key: an
    alias is in the list exactly when it resolves to an equal key, and
    the name itself is in the list. *)
Theorem get_aliases_lists_aliases_of_the_key
    (w : World) (al : dict PyVal PyVal) (name key : PyVal)
    (A : aliases_of (self w) = Some al)
    (W : dict_wf al = true)
    (R : dict_get al name = Some key) :
  exists r,
    get_aliases (Some name) w = (Ok r, w) /\
    r = dict_keys (filter (fun kv => py_eq (snd kv) key) al) /\
    (forall a, py_in a r = true <->
               exists t, dict_get al a = Some t /\ py_eq t key = true) /\
    py_in name r = true.
Proof.
  assert (Mem : forall a,
            py_in a (dict_keys (filter (fun kv => py_eq (snd kv) key) al)) = true <->
            exists t, dict_get al a = Some t /\ py_eq t key = true).
  { intros a. rewrite py_in_keys. unfold dict_contains.
    rewrite (dict_get_filter (fun t => py_eq t key) al a W).
    destruct (dict_get al a) as [t|].
    - destruct (py_eq t key) eqn:E; split; try discriminate; eauto.
      intros (t' & [= <-] & E'). congruence.
    - split; [discriminate|]. intros (t & Q & _). discriminate. }
  eexists. split; [|split; [reflexivity|split; [exact Mem|]]].
  - rewrite <- (rebuild_id w al A) at 1.
    unfold get_aliases, bind. rewrite read_aliases_rebuild.
    rewrite (aliases_matching_resolved name key w _ al R).
    now rewrite (rebuild_id w al A).
  - apply Mem. exists key. split; [exact R|apply py_eq_refl].
Qed.

Lemma get_aliases_lists_aliases_of_the_key_witness :
  let al := [(VStr "two words", VStr "two words");
             (VStr "two_words", VStr "two words"); (VStr "b", VStr "b")] in
  let w := mkWorld true (mkCleverDict [(VStr "two words", VInt 5); (VStr "b", VInt 0)]
                           [("_aliases", ADict al)]) in
  aliases_of (self w) = Some al /\ dict_wf al = true /\
  dict_get al (VStr "two_words") = Some (VStr "two words") /\
  get_aliases (Some (VStr "two_words")) w
    = (Ok [VStr "two words"; VStr "two_words"], w).
Proof.
  intros al w. repeat (split; [reflexivity|]).
  destruct (get_aliases_lists_aliases_of_the_key w al (VStr "two_words")
              (VStr "two words") eq_refl eq_refl eq_refl) as (r & Run & -> & _).
  exact Run.
Defined.

(** X6: without an argument [get_aliases] returns the keys of the alias
    index, that is, exactly the names that [get_key] resolves.  For a name
    that does not resolve, [get_aliases(name)] raises the KeyError of
    [get_key] only if the alias index holds an item: on an empty index it
    returns the empty list. *)
Theorem get_aliases_all_and_unknown_name
    (w : World) (al : dict PyVal PyVal)
    (A : aliases_of (self w) = Some al) :
  get_aliases None w = (Ok (dict_keys al), w) /\
  (forall a, py_in a (dict_keys al) = true <->
             exists key, get_key a w = (Ok key, w)) /\
  (forall name, dict_get al name = None ->
     get_aliases (Some name) w =
     (match al with
      | [] => Ok []
      | _ :: _ => Raise (KeyError (MsgKey name))
      end, w)).
Proof.
  pose proof (rebuild_id w al A) as Ew.
  split; [|split].
  - rewrite <- Ew at 1. unfold get_aliases, bind.
    rewrite read_aliases_rebuild. unfold ret. now rewrite Ew.
  - intros a. rewrite py_in_keys, (get_key_indexed a w al A).
    unfold dict_contains. destruct (dict_get al a) as [t|].
    + split; eauto.
    + split; [discriminate|]. intros (key & Q). discriminate Q.
  - intros name N. rewrite <- Ew at 1. unfold get_aliases, bind.
    rewrite read_aliases_rebuild. destruct al as [|item l].
    + cbn [aliases_matching]. unfold ret. now rewrite Ew.
    + rewrite (aliases_matching_unresolved name w _ _ item l N). now rewrite Ew.
Qed.

Lemma get_aliases_all_and_unknown_name_witness :
  let w := mkWorld true (mkCleverDict [] [("_aliases", ADict [])]) in
  aliases_of (self w) = Some [] /\
  get_aliases (Some (VStr "nobody")) w = (Ok [], w) /\
  get_key (VStr "nobody") w = (Raise (KeyError (MsgKey (VStr "nobody"))), w).
Proof.
  intros w. split; [reflexivity|].
  destruct (get_aliases_all_and_unknown_name w [] eq_refl) as (_ & _ & Unknown).
  split; [exact (Unknown (VStr "nobody") eq_refl)|reflexivity].
Defined.

(** ** update while expansion is disabled *)

Lemma py_key_congr_l (a b c : PyVal) :
  py_eq a b = true -> key_eq a c = key_eq b c.
Proof. exact (key_eq_congr_l a b c). Qed.

Lemma py_dict_get_cong {V : Type} (d : dict PyVal V) (k k' : PyVal) :
  py_eq k k' = true -> dict_get d k = dict_get d k'.
Proof. exact (dict_get_cong d k k'). Qed.

Lemma dict_set_lookup_cong (a b : dict PyVal PyVal) (k k' v : PyVal) :
  py_eq k k' = true ->
  (forall x, dict_get a x = dict_get b x) ->
  forall x, dict_get (dict_set a k v) x = dict_get (dict_set b k' v) x.
Proof.
  intros E Q x. rewrite !dict_get_set, Q.
  now rewrite (py_key_congr_l k k' x E).
Qed.

Lemma dict_update_lookup_cong (pairs : list (PyVal * PyVal)) :
  forall a b : dict PyVal PyVal,
  (forall x, dict_get a x = dict_get b x) ->
  forall x, dict_get (dict_update a pairs) x = dict_get (dict_update b pairs) x.
Proof.
  induction pairs as [|[k v] pairs IH]; intros a b Q; [exact Q|].
  apply IH. apply dict_set_lookup_cong; [apply py_eq_refl|exact Q].
Qed.

(** One assignment on a plain container while expansion is disabled: it
    succeeds, the container stays plain, and the entry store reads as the
    dictionary assignment [its[k] = v] makes it read. *)
Lemma plain_step (k v : PyVal) (w : World) (its al : dict PyVal PyVal) :
  CleverDict_expand w = false ->
  plain its al ->
  exists its' al',
    __setitem__ k v (rebuild w its al) = (Ok tt, rebuild w its' al') /\
    plain its' al' /\
    (forall x, dict_get its' x = dict_get (dict_set its k v) x) /\
    (dict_wf its = true -> dict_wf its' = true) /\
    (dict_wf al = true -> dict_wf al' = true).
Proof.
  intros Off P. unfold __setitem__. rewrite __setattr___rebuild, Off.
  pose proof (P k) as Pk.
  destruct (dict_get al k) as [key|] eqn:G.
  - destruct Pk as [Ek Ck].
    exists (dict_set its key v), al. split; [reflexivity|].
    split; [|split; [|split; [apply dict_wf_set|trivial]]].
    + intros x. specialize (P x). rewrite dict_contains_set.
      destruct (dict_get al x) as [t|] eqn:Gx.
      * destruct P as [Et Cx]. split; [exact Et|]. rewrite Cx. apply orb_true_r.
      * rewrite P, orb_false_r.
        destruct (key_eq key x) eqn:E; [|reflexivity].
        rewrite py_eq_sym in Ek.
        rewrite <- (py_dict_get_cong al k x (py_eq_trans _ _ _ Ek E)), G in Gx.
        discriminate.
    + apply dict_set_lookup_cong; [exact Ek|reflexivity].
  - rewrite Pk. cbn [negb name_to_aliases register]. rewrite G.
    exists (dict_set its k v), (dict_set al k k). split; [reflexivity|].
    split; [|split; [reflexivity|split; apply dict_wf_set]].
    intros x. specialize (P x). rewrite dict_get_set, dict_contains_set.
    destruct (key_eq k x) eqn:E; [now split|exact P].
Qed.

Lemma plain_update (pairs : list (PyVal * PyVal)) :
  forall (w : World) (its al : dict PyVal PyVal),
  CleverDict_expand w = false ->
  plain its al ->
  exists its' al',
    for_each pairs (fun '(k, v) => __setitem__ k v) (rebuild w its al)
      = (Ok tt, rebuild w its' al') /\
    plain its' al' /\
    (forall x, dict_get its' x = dict_get (dict_update its pairs) x) /\
    (dict_wf its = true -> dict_wf its' = true) /\
    (dict_wf al = true -> dict_wf al' = true).
Proof.
  induction pairs as [|[k v] pairs IH]; intros w its al Off P.
  - exists its, al. split; [reflexivity|]. split; [exact P|]. now repeat split.
  - destruct (plain_step k v w its al Off P) as (its1 & al1 & Run1 & P1 & L1 & Wi1 & Wa1).
    destruct (IH w its1 al1 Off P1) as (its2 & al2 & Run2 & P2 & L2 & Wi2 & Wa2).
    exists its2, al2. split; [|split; [exact P2|split; [|split; auto]]].
    + cbn [for_each]. unfold bind. rewrite Run1. exact Run2.
    + intros x. rewrite L2. cbn [dict_update fold_left fst snd].
      now apply dict_update_lookup_cong.
Qed.

Lemma plain_read (x : PyVal) (w : World) (its al : dict PyVal PyVal) :
  plain its al ->
  __getitem__ x (rebuild w its al) =
  (match dict_get its x with
   | Some v => Ok v
   | None => Raise (KeyError (MsgKey x))
   end, rebuild w its al).
Proof.
  intros P. rewrite __getitem___rebuild. specialize (P x).
  unfold dict_contains in P.
  destruct (dict_get al x) as [t|].
  - destruct P as [E C]. rewrite (py_dict_get_cong its t x E).
    now destruct (dict_get its x).
  - now destruct (dict_get its x).
Qed.

(** X7: on a container whose aliases are its stored keys, each registered
    for itself, and while expansion is disabled, [update] always
    succeeds and the container then reads as a plain dictionary updated
    with the same pairs does: the last value given for a key, the old
    value of a key not given, KeyError for any other name. *)
Theorem update_without_expansion_reads_as_dict
    (w : World) (al : dict PyVal PyVal)
    (_mapping : list (PyVal * PyVal)) (kwargs : list (string * PyVal))
    (A : aliases_of (self w) = Some al)
    (Off : CleverDict_expand w = false)
    (P : plain (items (self w)) al) :
  exists w',
    update _mapping kwargs w = (Ok tt, w') /\
    CleverDict_expand w' = false /\
    forall x,
      __getitem__ x w' =
      (match dict_get (dict_update (items (self w)) (chain _mapping kwargs)) x with
       | Some v => Ok v
       | None => Raise (KeyError (MsgKey x))
       end, w').
Proof.
  destruct (plain_update (chain _mapping kwargs) w (items (self w)) al Off P)
    as (its' & al' & Run & P' & L & _).
  exists (rebuild w its' al'). split; [|split; [exact Off|]].
  - unfold update. rewrite <- (rebuild_id w al A) at 1. exact Run.
  - intros x. rewrite (plain_read x w its' al' P'), L. reflexivity.
Qed.

Lemma update_without_expansion_witness :
  let w := mkWorld false (mkCleverDict [] [("_aliases", ADict [])]) in
  aliases_of (self w) = Some [] /\ CleverDict_expand w = false /\
  exists w',
    update [(VInt 1, VStr "a"); (VStr "_1", VStr "b"); (VBool true, VStr "c")] [] w
      = (Ok tt, w') /\
    __getitem__ (VInt 1) w' = (Ok (VStr "c"), w') /\
    __getitem__ (VStr "_1") w' = (Ok (VStr "b"), w') /\
    __getitem__ (VStr "_True") w' = (Raise (KeyError (MsgKey (VStr "_True"))), w').
Proof.
  intros w. split; [reflexivity|]. split; [reflexivity|].
  destruct (update_without_expansion_reads_as_dict w []
              [(VInt 1, VStr "a"); (VStr "_1", VStr "b"); (VBool true, VStr "c")] []
              eq_refl eq_refl) as (w' & Run & _ & Read).
  - intros x. reflexivity.
  - exists w'. split; [exact Run|].
    split; [exact (Read (VInt 1))|].
    split; [exact (Read (VStr "_1"))|exact (Read (VStr "_True"))].
Defined.

(** ** Equality is an equivalence *)

Section DictSame.
Context {K V : Type} `{PyKeyLaws K}.
Variable veq : V -> V -> bool.
Variable good : V -> bool.
Hypothesis veq_refl : forall v, good v = true -> veq v v = true.
Hypothesis veq_sym : forall a b, good a = true -> good b = true ->
  veq a b = true -> veq b a = true.
Hypothesis veq_trans : forall a b c, good a = true -> good b = true -> good c = true ->
  veq a b = true -> veq b c = true -> veq a c = true.

Lemma all_good_get (d : dict K V) (k : K) (v : V) :
  all_good good d -> dict_get d k = Some v -> good v = true.
Proof.
  intros G E. destruct (dict_get_In d k v E) as (k0 & I & _).
  exact (proj1 (forallb_forall _ _) G (k0, v) I).
Qed.

Lemma dict_same_refl (d : dict K V) : all_good good d -> dict_same veq d d.
Proof.
  intros G k. destruct (dict_get d k) as [v|] eqn:E; [|exact I].
  apply veq_refl. exact (all_good_get d k v G E).
Qed.

Lemma dict_same_sym (a b : dict K V) :
  all_good good a -> all_good good b -> dict_same veq a b -> dict_same veq b a.
Proof.
  intros Ga Gb S k. specialize (S k).
  destruct (dict_get a k) as [x|] eqn:Ea, (dict_get b k) as [y|] eqn:Eb;
    try contradiction; [|exact I].
  apply veq_sym; [exact (all_good_get a k x Ga Ea)|exact (all_good_get b k y Gb Eb)|exact S].
Qed.

Lemma dict_same_trans (a b c : dict K V) :
  all_good good a -> all_good good b -> all_good good c ->
  dict_same veq a b -> dict_same veq b c -> dict_same veq a c.
Proof.
  intros Ga Gb Gc S1 S2 k. specialize (S1 k). specialize (S2 k).
  destruct (dict_get a k) as [x|] eqn:Ea, (dict_get b k) as [y|] eqn:Eb,
    (dict_get c k) as [z|] eqn:Ec; try contradiction; [|exact I].
  apply (veq_trans x y z); try assumption.
  - exact (all_good_get a k x Ga Ea).
  - exact (all_good_get b k y Gb Eb).
  - exact (all_good_get c k z Gc Ec).
Qed.
End DictSame.

Lemma all_good_scalars (d : dict PyVal PyVal) : all_good (fun _ => true) d.
Proof. unfold all_good. now induction d as [|kv d IH]. Qed.

Lemma py_dict_same_refl (d : dict PyVal PyVal) : dict_same py_eq d d.
Proof.
  apply (dict_same_refl py_eq (fun _ => true)); [|apply all_good_scalars].
  intros v _. apply py_eq_refl.
Qed.

Lemma py_dict_same_sym (a b : dict PyVal PyVal) :
  dict_same py_eq a b -> dict_same py_eq b a.
Proof.
  apply (dict_same_sym py_eq (fun _ => true)); try apply all_good_scalars.
  intros x y _ _ E. now rewrite py_eq_sym.
Qed.

Lemma py_dict_same_trans (a b c : dict PyVal PyVal) :
  dict_same py_eq a b -> dict_same py_eq b c -> dict_same py_eq a c.
Proof.
  apply (dict_same_trans py_eq (fun _ => true)); try apply all_good_scalars.
  intros x y z _ _ _. apply py_eq_trans.
Qed.

Lemma attr_eqb_refl (v : AttrVal) : attr_wf v = true -> attr_eqb v v = true.
Proof.
  destruct v as [d|x]; cbn [attr_wf attr_eqb]; [|intros _; apply py_eq_refl].
  intros W. apply (dict_eqb_same py_eq d d W W), py_dict_same_refl.
Qed.

Lemma attr_eqb_sym (a b : AttrVal) :
  attr_wf a = true -> attr_wf b = true ->
  attr_eqb a b = true -> attr_eqb b a = true.
Proof.
  destruct a as [d1|x], b as [d2|y]; cbn [attr_wf attr_eqb]; try discriminate.
  - intros W1 W2 E. apply (dict_eqb_same py_eq d2 d1 W2 W1), py_dict_same_sym.
    now apply (dict_eqb_same py_eq d1 d2 W1 W2).
  - intros _ _ E. now rewrite py_eq_sym.
Qed.

Lemma attr_eqb_trans (a b c : AttrVal) :
  attr_wf a = true -> attr_wf b = true -> attr_wf c = true ->
  attr_eqb a b = true -> attr_eqb b c = true -> attr_eqb a c = true.
Proof.
  destruct a as [d1|x], b as [d2|y], c as [d3|z]; cbn [attr_wf attr_eqb];
    try discriminate.
  - intros W1 W2 W3 E1 E2.
    apply (dict_eqb_same py_eq d1 d3 W1 W3).
    apply (py_dict_same_trans d1 d2 d3).
    + now apply (dict_eqb_same py_eq d1 d2 W1 W2).
    + now apply (dict_eqb_same py_eq d2 d3 W2 W3).
  - intros _ _ _. apply py_eq_trans.
Qed.

(** [__eq__] decides that the entry stores and the instance dictionaries
    hold the same keys with equal values. *)
Lemma __eq___same (a b : CleverDict) :
  dict_wf (items a) = true -> dict_wf (vars a) = true ->
  dict_wf (items b) = true -> dict_wf (vars b) = true ->
  (__eq__ a b = true <->
   dict_same py_eq (items a) (items b) /\ dict_same attr_eqb (vars a) (vars b)).
Proof.
  intros Wia Wva Wib Wvb. unfold __eq__. rewrite andb_true_iff.
  now rewrite (dict_eqb_same py_eq _ _ Wia Wib), (dict_eqb_same attr_eqb _ _ Wva Wvb).
Qed.

Lemma wf_container_stores (c : CleverDict) :
  wf_container c = true ->
  dict_wf (items c) = true /\ dict_wf (vars c) = true.
Proof.
  unfold wf_container. intros W.
  apply andb_true_iff in W as [W _]. now apply andb_true_iff in W.
Qed.

(** X8: on containers whose dictionaries repeat no key, [==] is an
    equivalence: every container equals itself, [a == b] and [b == a]
    agree, and [a == b] with [b == c] gives [a == c]. *)
Theorem eq_is_an_equivalence (a b c : CleverDict)
    (Wa : wf_container a = true) (Ga : wf_attrs a = true)
    (Wb : wf_container b = true) (Gb : wf_attrs b = true)
    (Wc : wf_container c = true) (Gc : wf_attrs c = true) :
  __eq__ a a = true /\
  __eq__ a b = __eq__ b a /\
  (__eq__ a b = true -> __eq__ b c = true -> __eq__ a c = true).
Proof.
  destruct (wf_container_stores a Wa) as [Wia Wva].
  destruct (wf_container_stores b Wb) as [Wib Wvb].
  destruct (wf_container_stores c Wc) as [Wic Wvc].
  assert (Sym : forall x y,
            dict_wf (items x) = true -> dict_wf (vars x) = true -> wf_attrs x = true ->
            dict_wf (items y) = true -> dict_wf (vars y) = true -> wf_attrs y = true ->
            __eq__ x y = true -> __eq__ y x = true).
  { intros x y Wix Wvx Gx Wiy Wvy Gy E.
    apply (__eq___same x y Wix Wvx Wiy Wvy) in E as [Si Sv].
    apply (__eq___same y x Wiy Wvy Wix Wvx). split.
    - now apply py_dict_same_sym.
    - now apply (dict_same_sym attr_eqb attr_wf attr_eqb_sym). }
  split; [|split].
  - apply (__eq___same a a Wia Wva Wia Wva). split.
    + apply py_dict_same_refl.
    + now apply (dict_same_refl attr_eqb attr_wf attr_eqb_refl).
  - destruct (__eq__ a b) eqn:Eab, (__eq__ b a) eqn:Eba; try reflexivity.
    + rewrite (Sym a b) in Eba; auto.
    + rewrite (Sym b a) in Eab; auto.
  - intros Eab Ebc.
    apply (__eq___same a b Wia Wva Wib Wvb) in Eab as [Si1 Sv1].
    apply (__eq___same b c Wib Wvb Wic Wvc) in Ebc as [Si2 Sv2].
    apply (__eq___same a c Wia Wva Wic Wvc). split.
    + now apply (py_dict_same_trans _ (items b)).
    + now apply (dict_same_trans attr_eqb attr_wf attr_eqb_trans _ (vars b)).
Qed.

Lemma eq_is_an_equivalence_witness :
  let a := mkCleverDict [(VInt 1, VStr "x"); (VStr "b", VInt 0)]
             [("_aliases", ADict [(VInt 1, VInt 1); (VStr "b", VStr "b")]);
              ("note", AVal (VInt 7))] in
  let b := mkCleverDict [(VStr "b", VInt 0); (VBool true, VStr "x")]
             [("note", AVal (VInt 7));
              ("_aliases", ADict [(VStr "b", VStr "b"); (VBool true, VBool true)])] in
  wf_container a = true /\ wf_attrs a = true /\
  wf_container b = true /\ wf_attrs b = true /\
  __eq__ a b = true /\ __eq__ a b = __eq__ b a.
Proof.
  intros a b. repeat (split; [reflexivity|]).
  exact (proj1 (proj2 (eq_is_an_equivalence a b a eq_refl eq_refl eq_refl eq_refl
                         eq_refl eq_refl))).
Defined.

(** ** Rebuilding a container from the arguments of its representation *)

Section DictFold.
Context {K V : Type} `{PyKeyLaws K}.
Implicit Types (d pairs : dict K V).

Lemma dict_get_fold_set pairs : forall d x,
  dict_wf pairs = true ->
  dict_get (fold_left (fun d kv => dict_set d (fst kv) (snd kv)) pairs d) x =
  match dict_get pairs x with
  | Some v => Some v
  | None => dict_get d x
  end.
Proof.
  induction pairs as [|[k v] pairs IH]; intros d x W; [reflexivity|].
  cbn [dict_wf] in W. apply andb_true_iff in W as [W1 W2].
  apply negb_true_iff in W1. cbn [fold_left fst snd dict_get].
  rewrite (IH _ x W2), dict_get_set.
  destruct (key_eq k x) eqn:E; [|reflexivity].
  unfold dict_contains in W1. rewrite (dict_get_cong pairs k x E) in W1.
  now destruct (dict_get pairs x).
Qed.

Lemma dict_wf_fold_set pairs : forall d,
  dict_wf d = true ->
  dict_wf (fold_left (fun d kv => dict_set d (fst kv) (snd kv)) pairs d) = true.
Proof.
  induction pairs as [|[k v] pairs IH]; intros d W; [exact W|].
  cbn [fold_left]. apply IH. now apply dict_wf_set.
Qed.

Lemma dict_contains_filter (p : K * V -> bool) d k :
  dict_contains (filter p d) k = true -> dict_contains d k = true.
Proof.
  unfold dict_contains. induction d as [|[k0 v0] d IH]; [trivial|].
  cbn [filter dict_get]. destruct (p (k0, v0)); cbn [dict_get];
    destruct (key_eq k0 k); auto.
Qed.

Lemma dict_wf_filter (p : K * V -> bool) d :
  dict_wf d = true -> dict_wf (filter p d) = true.
Proof.
  induction d as [|[k0 v0] d IH]; [trivial|]. cbn [dict_wf filter].
  intros [W1 W2]%andb_true_iff. destruct (p (k0, v0)); [|now apply IH].
  cbn [dict_wf]. rewrite (IH W2), andb_true_r.
  apply negb_true_iff in W1. apply negb_true_iff.
  destruct (dict_contains (filter p d) k0) eqn:C; [|reflexivity].
  now rewrite (dict_contains_filter p d k0 C) in W1.
Qed.

(** Filtering by a test on the keys that equal keys pass alike. *)
Lemma dict_get_filter_key (p : K -> bool) d x :
  (forall a b, key_eq a b = true -> p a = p b) ->
  dict_get (filter (fun kv => p (fst kv)) d) x =
  if p x then dict_get d x else None.
Proof.
  intros Resp. induction d as [|[k0 v0] d IH]; [now destruct (p x)|].
  cbn [filter fst dict_get]. destruct (key_eq k0 x) eqn:E.
  - rewrite (Resp k0 x E). destruct (p x); [|exact IH].
    cbn [dict_get]. now rewrite E.
  - destruct (p k0); [|exact IH]. cbn [dict_get]. now rewrite E.
Qed.

Lemma all_good_set (good : V -> bool) d k v :
  all_good good d -> good v = true -> all_good good (dict_set d k v).
Proof.
  unfold all_good. intros G Gv. induction d as [|[k0 v0] d IH]; cbn.
  - now rewrite Gv.
  - cbn in G. apply andb_true_iff in G as [G0 G].
    destruct (key_eq k0 k); cbn; [now rewrite Gv, G|now rewrite G0, IH].
Qed.

Lemma all_good_fold_set (good : V -> bool) pairs : forall d,
  all_good good d -> all_good good pairs ->
  all_good good (fold_left (fun d kv => dict_set d (fst kv) (snd kv)) pairs d).
Proof.
  induction pairs as [|[k v] pairs IH]; intros d G Gp; [exact G|].
  unfold all_good in Gp. cbn in Gp. apply andb_true_iff in Gp as [Gv Gp].
  cbn [fold_left]. apply IH; [|exact Gp]. now apply all_good_set.
Qed.

Lemma all_good_filter (good : V -> bool) (p : K * V -> bool) d :
  all_good good d -> all_good good (filter p d).
Proof.
  unfold all_good. induction d as [|kv d IH]; [trivial|]. cbn.
  intros [G0 G]%andb_true_iff. destruct (p kv); cbn; [now rewrite G0, IH|now apply IH].
Qed.
End DictFold.

(** The loop of [__init__] over declared aliases none of which is
    registered yet. *)
Lemma declare_fresh_loop (decl : dict PyVal PyVal) :
  forall (w : World) (its al : dict PyVal PyVal),
  dict_wf decl = true ->
  (forall a t, In (a, t) decl -> dict_get al a = None) ->
  for_each decl (fun '(k, v) => _add_alias v k) (rebuild w its al) =
  (Ok tt, rebuild w its
            (fold_left (fun d kv => dict_set d (fst kv) (snd kv)) decl al)).
Proof.
  induction decl as [|[a t] decl IH]; intros w its al W F; [reflexivity|].
  cbn [dict_wf] in W. apply andb_true_iff in W as [W1 W2].
  apply negb_true_iff in W1.
  cbn [for_each fold_left fst snd]. unfold bind.
  rewrite _add_alias_rebuild, (F a t (or_introl eq_refl)).
  apply IH; [exact W2|].
  intros a' t' I. rewrite dict_get_set.
  destruct (key_eq a a') eqn:E; [|apply (F a' t'); now right].
  rewrite (dict_contains_cong decl a a' E) in W1.
  now rewrite (dict_In_contains decl a' t' I) in W1.
Qed.

Lemma vars_fold_loop (_vars : dict string AttrVal) :
  forall w : World,
  for_each _vars (fun '(k, v) => setattr_direct k v) w =
  (Ok tt,
   mkWorld (CleverDict_expand w)
     (mkCleverDict (items (self w))
        (fold_left (fun d kv => dict_set d (fst kv) (snd kv)) _vars (vars (self w))))).
Proof.
  induction _vars as [|[k v] _vars IH]; intros w.
  - now destruct w as [f [its vs]].
  - cbn [for_each fold_left fst snd]. unfold bind.
    unfold setattr_direct at 1. now rewrite IH.
Qed.

(** The alias index rebuilt from the items and from the aliases that are
    not keys holds the same aliases as the original one, when that one
    satisfies I1. *)
Lemma rebuilt_index_same (its its' al al' : dict PyVal PyVal) :
  (forall x, dict_get its' x = dict_get its x) ->
  plain its' al' ->
  dict_wf al = true ->
  (forall k, dict_contains its k = true ->
     exists t, dict_get al k = Some t /\ py_eq t k = true) ->
  dict_same py_eq
    (fold_left (fun d kv => dict_set d (fst kv) (snd kv))
       (filter (fun kv => negb (dict_contains its (fst kv))) al) al')
    al.
Proof.
  intros L P Wa F x.
  rewrite dict_get_fold_set by (now apply dict_wf_filter).
  rewrite (dict_get_filter_key (fun a => negb (dict_contains its a)) al x).
  2:{ intros a b E. f_equal. now apply dict_contains_cong. }
  specialize (P x). unfold dict_contains in P. rewrite L in P.
  destruct (dict_contains its x) eqn:C; cbn [negb].
  - destruct (F x C) as (t & -> & Et).
    unfold dict_contains in C.
    destruct (dict_get al' x) as [t'|].
    + destruct P as [Et' _]. rewrite py_eq_sym in Et.
      exact (py_eq_trans _ _ _ Et' Et).
    + now rewrite P in C.
  - unfold dict_contains in C.
    destruct (dict_get al x) as [t|]; [apply py_eq_refl|].
    destruct (dict_get al' x) as [t'|]; [|exact I].
    destruct P as [_ P]. now rewrite P in C.
Qed.

(** X9: the arguments that [__repr__] prints rebuild the container.  For
    a container that satisfies I1, the constructor applied to the items,
    to the aliases that are not keys and to the direct attributes
    succeeds, whatever the expansion flag, leaves the flag as it was, and
    returns a container equal to the original one. *)
Theorem repr_arguments_rebuild_the_container
    (c : CleverDict) (al : dict PyVal PyVal) (f flag : bool)
    (A : aliases_of c = Some al)
    (W : wf_container c = true) (G : wf_attrs c = true)
    (Inv : I1 c) :
  exists m a v c',
    __repr__args (mkWorld f c) = (Ok (m, a, v), mkWorld f c) /\
    CleverDict_new flag m (Some a) v [] = (Ok c', flag) /\
    __eq__ c' c = true /\ __eq__ c c' = true.
Proof.
  destruct (wf_container_parts c al W A) as (Wi & Wv & Wa).
  set (its := items c) in *. set (vs := vars c) in *.
  set (decl := filter (fun kv => negb (dict_contains its (fst kv))) al).
  set (v := filter (fun kv => negb (String.eqb (fst kv) "_aliases")) vs).
  set (w0 := mkWorld false fresh).
  assert (F : forall k, dict_contains its k = true ->
                exists t, dict_get al k = Some t /\ py_eq t k = true).
  { destruct Inv as (al0 & A0 & F). rewrite A in A0. now injection A0 as <-. }
  destruct (plain_update its w0 [] [] eq_refl) as (its' & al' & RunU & P & L & Wi' & Wa').
  { intros x. reflexivity. }
  assert (L' : forall x, dict_get its' x = dict_get its x).
  { intros x. rewrite L. unfold dict_update.
    rewrite (dict_get_fold_set its [] x Wi). now destruct (dict_get its x). }
  assert (Wd : dict_wf decl = true) by (now apply dict_wf_filter).
  assert (Fresh : forall a t, In (a, t) decl -> dict_get al' a = None).
  { intros a t I. apply filter_In in I as [_ N]. cbn [fst] in N.
    apply negb_true_iff in N. specialize (P a).
    unfold dict_contains in P, N. rewrite L' in P.
    destruct (dict_get al' a); [|reflexivity].
    destruct P as [_ P]. now rewrite P in N. }
  set (al2 := fold_left (fun d kv => dict_set d (fst kv) (snd kv)) decl al').
  set (vs' := fold_left (fun d kv => dict_set d (fst kv) (snd kv)) v
                [("_aliases", ADict al2)]).
  assert (Wv0 : dict_wf v = true) by (now apply dict_wf_filter).
  assert (Lv : forall name, dict_get vs' name =
             if String.eqb name "_aliases" then Some (ADict al2) else dict_get vs name).
  { intros name. unfold vs'. rewrite (dict_get_fold_set v _ name Wv0).
    pose proof (dict_get_direct_attributes c name) as Q.
    unfold direct_attributes in Q. fold vs in Q. fold v in Q. rewrite Q.
    cbn [dict_get]. unfold key_eq, PyKey_str.
    rewrite (String.eqb_sym "_aliases" name).
    destruct (String.eqb name "_aliases"); [reflexivity|].
    now destruct (dict_get vs name). }
  assert (Sa : dict_same py_eq al2 al) by (now apply (rebuilt_index_same its its')).
  assert (Wa2 : dict_wf al2 = true) by (now apply dict_wf_fold_set, Wa').
  assert (Wvs' : dict_wf vs' = true) by (now apply dict_wf_fold_set).
  assert (Gv : all_good attr_wf vs').
  { apply all_good_fold_set.
    - unfold all_good. cbn. now rewrite Wa2.
    - now apply all_good_filter. }
  assert (Si : dict_same py_eq its' its).
  { intros k. rewrite L'. destruct (dict_get its k); [apply py_eq_refl|exact I]. }
  assert (Sv : dict_same attr_eqb vs' vs).
  { intros name. rewrite Lv. destruct (String.eqb name "_aliases") eqn:E.
    - apply String.eqb_eq in E. subst name.
      unfold vs. rewrite (aliases_of_get c al A). cbn [attr_eqb].
      now apply (dict_eqb_same py_eq al2 al Wa2 Wa).
    - destruct (dict_get vs name) as [x|] eqn:Gx; [|exact I].
      apply attr_eqb_refl. exact (all_good_get attr_wf vs name x G Gx). }
  exists its, decl, v, (mkCleverDict its' vs').
  split; [|split; [|split]].
  - unfold __repr__args, bind, read_items, read_aliases. cbn [self vars items].
    fold vs. unfold vs at 1. now rewrite (aliases_of_get c al A).
  - unfold CleverDict_new, __init__, bind, with_expand, bind, try_finally,
      expand__enter__, expand__exit__, read_expand, update.
    cbn [setattr_direct CleverDict_expand].
    change (write_expand false _) with (rebuild w0 [] []).
    unfold chain. cbn [map]. rewrite app_nil_r, RunU.
    rewrite (declare_fresh_loop decl w0 its' al' Wd Fresh).
    rewrite vars_fold_loop. reflexivity.
  - apply (__eq___same (mkCleverDict its' vs') c); auto.
  - apply (__eq___same c (mkCleverDict its' vs')); auto. split.
    + now apply py_dict_same_sym.
    + now apply (dict_same_sym attr_eqb attr_wf attr_eqb_sym).
Qed.

Lemma repr_arguments_rebuild_witness :
  let al := [(VInt 1, VInt 1); (VStr "_1", VInt 1); (VStr "_True", VInt 1);
             (VStr "one", VInt 1)] in
  let c := mkCleverDict [(VInt 1, VStr "x")]
             [("_aliases", ADict al); ("note", AVal (VInt 7))] in
  aliases_of c = Some al /\ wf_container c = true /\ wf_attrs c = true /\
  I1 c /\
  exists c',
    CleverDict_new true [(VInt 1, VStr "x")]
      (Some [(VStr "_1", VInt 1); (VStr "_True", VInt 1); (VStr "one", VInt 1)])
      [("note", AVal (VInt 7))] [] = (Ok c', true) /\
    __eq__ c' c = true.
Proof.
  intros al c.
  assert (Inv : I1 c) by (now apply I1b_spec).
  repeat (split; [reflexivity|]). split; [exact Inv|].
  destruct (repr_arguments_rebuild_the_container c al true true
              eq_refl eq_refl eq_refl Inv) as (m & a & v & c' & Args & New & E & _).
  injection Args as <- <- <-.
  exists c'. split; [exact New|exact E].
Defined.

(** ** fromkeys *)

Lemma register_origin (key : PyVal) (l : list PyVal) :
  forall al x t,
  dict_get (snd (register key l al)) x = Some t ->
  t = key \/ dict_get al x = Some t.
Proof.
  induction l as [|a l IH]; intros al x t G; [now right|]. cbn [register] in G.
  assert (Step : dict_get (snd (register key l (dict_set al a key))) x = Some t ->
                 t = key \/ dict_get al x = Some t).
  { intros G'. destruct (IH _ _ _ G') as [->|G'']; [now left|].
    rewrite dict_get_set in G''. destruct (key_eq a x); [|now right].
    injection G'' as <-. now left. }
  destruct (dict_get al a) as [target|]; [|now apply Step].
  destruct (negb (py_eq target key)); [now right|now apply Step].
Qed.

(** Assigning one and the same value: as long as every alias resolves to
    a stored key that holds the value and every stored key is registered,
    a successful assignment keeps it so and leaves the assigned key
    registered. *)
Lemma same_value_step (value k : PyVal) (w w' : World) (its al : dict PyVal PyVal) :
  (forall x t, dict_get al x = Some t -> dict_get its t = Some value) ->
  (forall x, dict_contains its x = true -> exists t, dict_get al x = Some t) ->
  __setitem__ k value (rebuild w its al) = (Ok tt, w') ->
  exists its' al',
    w' = rebuild w its' al' /\
    (forall x t, dict_get al' x = Some t -> dict_get its' t = Some value) /\
    (forall x, dict_contains its' x = true -> exists t, dict_get al' x = Some t) /\
    (exists t, dict_get al' k = Some t) /\
    (forall x t, dict_get al x = Some t -> exists t', dict_get al' x = Some t').
Proof.
  intros J Kp. unfold __setitem__. rewrite __setattr___rebuild.
  assert (Jset : forall key al0,
            (forall x t, dict_get al0 x = Some t -> t = key \/ dict_get al x = Some t) ->
            forall x t, dict_get al0 x = Some t ->
            dict_get (dict_set its key value) t = Some value).
  { intros key al0 Or x t G. rewrite dict_get_set.
    destruct (key_eq key t) eqn:E; [reflexivity|].
    destruct (Or x t G) as [->|G']; [|exact (J x t G')].
    change (py_eq key key = false) in E. now rewrite py_eq_refl in E. }
  destruct (dict_get al k) as [key|] eqn:G.
  - intros [= <-]. exists (dict_set its key value), al.
    split; [reflexivity|]. split; [|split; [|split; [eauto|eauto]]].
    + apply Jset. now right.
    + intros x. rewrite dict_contains_set.
      destruct (key_eq key x) eqn:E; [|apply Kp]. intros _. apply Kp.
      rewrite <- (dict_contains_cong its key x E).
      unfold dict_contains. now rewrite (J k key G).
  - destruct (dict_contains its k) eqn:C; cbn [negb].
    { destruct (Kp k C) as (t & Q). congruence. }
    destruct (register k (name_to_aliases (CleverDict_expand w) k) al)
      as [[[a t]|] al'] eqn:Reg; [discriminate|].
    intros [= <-]. exists (dict_set its k value), al'.
    pose proof (register_origin k (name_to_aliases (CleverDict_expand w) k) al) as Or.
    pose proof (register_registers k (name_to_aliases (CleverDict_expand w) k) al) as Rr.
    pose proof (register_preserves k (name_to_aliases (CleverDict_expand w) k) al) as Rp.
    rewrite Reg in Or, Rr, Rp. cbn [fst snd] in Or, Rr, Rp.
    assert (Gk : dict_get al' k = Some k).
    { apply (Rr eq_refl).
      destruct (name_to_aliases_head (CleverDict_expand w) k) as [rest ->]. now left. }
    split; [reflexivity|]. split; [|split; [|split; [eauto|]]].
    + now apply Jset.
    + intros x. rewrite dict_contains_set.
      destruct (key_eq k x) eqn:E.
      * intros _. exists k. now rewrite <- (dict_get_cong al' k x E).
      * intros Cx. destruct (Kp x Cx) as (t & Gx).
        destruct (Rp x t Gx) as (t' & Gt' & _). eauto.
    + intros x t Gx. destruct (Rp x t Gx) as (t' & Gt' & _). eauto.
Qed.

Lemma same_value_loop (value : PyVal) (pairs : list (PyVal * PyVal)) :
  forall (w w' : World) (its al : dict PyVal PyVal),
  (forall k v, In (k, v) pairs -> v = value) ->
  (forall x t, dict_get al x = Some t -> dict_get its t = Some value) ->
  (forall x, dict_contains its x = true -> exists t, dict_get al x = Some t) ->
  for_each pairs (fun '(k, v) => __setitem__ k v) (rebuild w its al) = (Ok tt, w') ->
  exists its' al',
    w' = rebuild w its' al' /\
    (forall x t, dict_get al' x = Some t -> dict_get its' t = Some value) /\
    (forall k v, In (k, v) pairs -> exists t, dict_get al' k = Some t) /\
    (forall x t, dict_get al x = Some t -> exists t', dict_get al' x = Some t').
Proof.
  induction pairs as [|[k v] pairs IH]; intros w w' its al Vs J Kp Run.
  - injection Run as <-. exists its, al.
    split; [reflexivity|]. split; [exact J|]. split; [intros k v []|eauto].
  - cbn [for_each] in Run. unfold bind in Run.
    rewrite (Vs k v (or_introl eq_refl)) in Run.
    destruct (__setitem__ k value (rebuild w its al)) as [[[]|e] w1] eqn:Run1;
      [|discriminate].
    destruct (same_value_step value k w w1 its al J Kp Run1)
      as (its1 & al1 & -> & J1 & K1 & Gk & Keep1).
    destruct (IH w w' its1 al1) as (its2 & al2 & -> & J2 & Reg2 & Keep2); auto.
    { intros k' v' I. apply (Vs k' v'). now right. }
    exists its2, al2. split; [reflexivity|]. split; [exact J2|]. split.
    + intros k' v' [[= <- <-]|I]; [|now apply (Reg2 k' v')].
      destruct Gk as (t & Gk). exact (Keep2 k t Gk).
    + intros x t Gx. destruct (Keep1 x t Gx) as (t1 & G1). exact (Keep2 x t1 G1).
Qed.

Lemma dict_comprehension_values (value : PyVal) (keys : list PyVal) :
  forall d : dict PyVal PyVal,
  (forall k v, In (k, v) d -> v = value) ->
  forall k v, In (k, v) (fold_left (fun d k => dict_set d k value) keys d) -> v = value.
Proof.
  induction keys as [|k0 keys IH]; intros d Vd; [exact Vd|].
  cbn [fold_left]. apply IH. clear IH.
  induction d as [|[k1 v1] d IHd]; cbn [dict_set].
  - intros k v [[= _ <-]|[]]. reflexivity.
  - destruct (key_eq k1 k0).
    + intros k v [[= _ <-]|I]; [reflexivity|]. apply (Vd k v). now right.
    + intros k v [Q|I]; [apply (Vd k v); now left|].
      apply (IHd (fun k' v' I' => Vd k' v' (or_intror I')) k v I).
Qed.

Lemma dict_comprehension_lookup (value : PyVal) (keys : list PyVal) :
  forall (d : dict PyVal PyVal) x,
  dict_get (fold_left (fun d k => dict_set d k value) keys d) x =
  if py_in x keys then Some value else dict_get d x.
Proof.
  induction keys as [|k0 keys IH]; intros d x; [reflexivity|].
  cbn [fold_left]. rewrite IH, dict_get_set. unfold py_in. cbn [existsb].
  fold (py_in x keys). change (py_eq k0 x) with (key_eq k0 x).
  destruct (py_in x keys); [now rewrite orb_true_r|].
  rewrite orb_false_r. reflexivity.
Qed.

Lemma dict_comprehension_wf (value : PyVal) (keys : list PyVal) :
  dict_wf (dict_comprehension keys value) = true.
Proof.
  unfold dict_comprehension.
  assert (Gen : forall d : dict PyVal PyVal, dict_wf d = true ->
            dict_wf (fold_left (fun d k => dict_set d k value) keys d) = true).
  { induction keys as [|k keys IH]; intros d W; [exact W|].
    cbn [fold_left]. apply IH. now apply dict_wf_set. }
  now apply Gen.
Qed.

(** X10: [fromkeys(keys, value)].  Whenever the construction succeeds,
    it leaves the expansion flag as it was and every one of the keys
    reads [value].  (With expansion enabled it can fail: two of the keys
    may derive the same alias.)  While expansion is disabled it always
    succeeds, and the new container reads [value] for the names equal to
    one of the keys and raises KeyError for every other name. *)
Theorem fromkeys_reads_the_value (flag : bool) (keys : list PyVal) (value : PyVal) :
  (forall c fl, fromkeys flag keys value = (Ok c, fl) ->
     fl = flag /\
     forall k f, In k keys ->
       __getitem__ k (mkWorld f c) = (Ok value, mkWorld f c)) /\
  (flag = false ->
   exists c, fromkeys flag keys value = (Ok c, flag) /\
     forall x f,
       __getitem__ x (mkWorld f c) =
       (if py_in x keys then Ok value else Raise (KeyError (MsgKey x)),
        mkWorld f c)).
Proof.
  set (comp := dict_comprehension keys value).
  set (w0 := mkWorld flag fresh).
  assert (Init : fromkeys flag keys value =
            match for_each comp (fun '(k, v) => __setitem__ k v) (rebuild w0 [] []) with
            | (Ok _, w) => (Ok (self w), flag)
            | (Raise e, w) => (Raise e, flag)
            end).
  { unfold fromkeys, CleverDict_new, __init__, bind, with_expand, bind, try_finally,
      expand__enter__, expand__exit__, read_expand, update.
    cbn [setattr_direct CleverDict_expand].
    change (write_expand flag (mkWorld flag _)) with (rebuild w0 [] []).
    unfold chain. cbn [map]. rewrite app_nil_r. fold comp.
    destruct (for_each comp (fun '(k, v) => __setitem__ k v) (rebuild w0 [] []))
      as [[[]|e] w1]; reflexivity. }
  split.
  - intros c fl. rewrite Init.
    destruct (for_each comp (fun '(k, v) => __setitem__ k v) (rebuild w0 [] []))
      as [[[]|e] w1] eqn:Run; [|discriminate].
    intros [= <- <-]. split; [reflexivity|]. intros k f I.
    destruct (same_value_loop value comp w0 w1 [] []) as (its & al & -> & J & Reg & _);
      try exact Run; try discriminate.
    { apply (dict_comprehension_values value keys []). intros k' v' []. }
    change (mkWorld f (self (rebuild w0 its al)))
      with (rebuild (mkWorld f fresh) its al).
    rewrite __getitem___rebuild.
    assert (C : dict_contains comp k = true).
    { unfold dict_contains, comp, dict_comprehension.
      now rewrite dict_comprehension_lookup, (py_in_In k keys I). }
    unfold dict_contains in C.
    destruct (dict_get comp k) as [v|] eqn:Gc; [|discriminate].
    destruct (dict_get_In comp k v Gc) as (k0 & I0 & E0).
    destruct (Reg k0 v I0) as (t & Gt).
    rewrite <- (dict_get_cong al k0 k E0), Gt, (J k0 t Gt). reflexivity.
  - intros ->.
    destruct (plain_update comp w0 [] [] eq_refl) as (its & al & Run & P & L & _).
    { intros x. reflexivity. }
    exists (self (rebuild w0 its al)). rewrite Init, Run.
    split; [reflexivity|]. intros x f.
    change (mkWorld f (self (rebuild w0 its al)))
      with (rebuild (mkWorld f fresh) its al).
    rewrite (plain_read x _ its al P), L. unfold dict_update.
    rewrite (dict_get_fold_set comp [] x (dict_comprehension_wf value keys)).
    unfold comp, dict_comprehension. rewrite dict_comprehension_lookup.
    now destruct (py_in x keys).
Qed.

Lemma fromkeys_reads_the_value_witness :
  exists c,
    fromkeys true [VInt 1; VStr "a b"; VBool true] VNone = (Ok c, true) /\
    __getitem__ (VStr "a b") (mkWorld true c) = (Ok VNone, mkWorld true c).
Proof.
  destruct (fromkeys true [VInt 1; VStr "a b"; VBool true] VNone) as [[c|e] fl] eqn:Run;
    [|vm_compute in Run; discriminate Run].
  destruct (proj1 (fromkeys_reads_the_value true [VInt 1; VStr "a b"; VBool true] VNone)
              c fl Run) as [-> Read].
  exists c. split; [reflexivity|].
  apply Read. right. left. reflexivity.
Defined.

(** ** delete_alias *)

Lemma py_in_tl_in (x : PyVal) (l : list PyVal) :
  py_in x (tl l) = true -> py_in x l = true.
Proof.
  destruct l as [|y l]; [trivial|]. unfold py_in. cbn [tl existsb].
  intros ->. apply orb_true_r.
Qed.

Lemma cascade_loop (l : list PyVal) :
  forall (w : World) (its al : dict PyVal PyVal),
  for_each l (fun alx =>
      aliases <- read_aliases ;;
      if py_in alx (tl (dict_keys aliases)) then del_alias alx else ret tt)
    (rebuild w its al)
  = (Ok tt, rebuild w its (cascade l al)).
Proof.
  induction l as [|alx l IH]; intros w its al; [reflexivity|].
  cbn [for_each cascade]. unfold bind at 1 2. rewrite read_aliases_rebuild.
  destruct (py_in alx (tl (dict_keys al))) eqn:In0.
  - destruct (dict_del_some al alx) as [al' D].
    { rewrite <- py_in_keys. now apply py_in_tl_in. }
    unfold del_alias, bind. rewrite read_aliases_rebuild, D, write_aliases_rebuild.
    apply IH.
  - unfold ret at 1. apply IH.
Qed.

Lemma delete_alias_scalar_rebuild (a : PyVal) (w : World) (its al : dict PyVal PyVal) :
  delete_alias (Scalar a) (rebuild w its al) =
  if negb (dict_contains al a)
  then (Raise (KeyError (MsgNotPresent a)), rebuild w its al)
  else if dict_contains its a
  then (Raise (KeyError (MsgKeyElement a)), rebuild w its al)
  else match dict_del al a with
       | Some al1 =>
           (Ok tt, rebuild w its (cascade (name_to_aliases (CleverDict_expand w) a) al1))
       | None => (Raise (KeyError (MsgKey a)), rebuild w its al)
       end.
Proof.
  unfold delete_alias. cbn [alias_list for_each]. unfold bind at 1 2.
  rewrite read_aliases_rebuild.
  destruct (dict_contains al a) eqn:Ca; cbn [negb]; [|reflexivity].
  unfold bind at 1, read_items at 1.
  change (items (self (rebuild w its al))) with its.
  destruct (dict_contains its a) eqn:Ci; [reflexivity|].
  unfold bind at 1, del_alias, bind at 1. rewrite read_aliases_rebuild.
  destruct (dict_del al a) as [al1|]; [|reflexivity].
  rewrite write_aliases_rebuild.
  unfold bind at 1, read_expand at 1.
  change (CleverDict_expand (rebuild w its al1)) with (CleverDict_expand w).
  unfold bind. rewrite cascade_loop. reflexivity.
Qed.

Lemma cascade_wf (l : list PyVal) :
  forall al, dict_wf al = true -> dict_wf (cascade l al) = true.
Proof.
  induction l as [|alx l IH]; intros al W; [exact W|]. cbn [cascade].
  destruct (py_in alx (tl (dict_keys al))); [|now apply IH].
  destruct (dict_del al alx) as [al'|] eqn:D; [|exact W].
  apply IH. exact (dict_wf_del al al' alx W D).
Qed.

(** The cascade only removes. *)
Lemma cascade_only_removes (l : list PyVal) :
  forall al x t,
  dict_wf al = true ->
  dict_get (cascade l al) x = Some t -> dict_get al x = Some t.
Proof.
  induction l as [|alx l IH]; intros al x t W G; [exact G|]. cbn [cascade] in G.
  destruct (py_in alx (tl (dict_keys al))); [|now apply IH].
  destruct (dict_del al alx) as [al'|] eqn:D; [|exact G].
  apply IH in G; [|exact (dict_wf_del al al' alx W D)].
  destruct (key_eq alx x) eqn:E.
  - now rewrite (dict_get_del_same al al' alx x W D E) in G.
  - now rewrite (dict_get_del_other al al' alx x D E) in G.
Qed.

(** The cascade removes derived forms only. *)
Lemma cascade_keeps_others (l : list PyVal) :
  forall al x,
  (forall alx, In alx l -> py_eq alx x = false) ->
  dict_get (cascade l al) x = dict_get al x.
Proof.
  induction l as [|alx l IH]; intros al x F; [reflexivity|]. cbn [cascade].
  assert (Fl : forall alx', In alx' l -> py_eq alx' x = false)
    by (intros alx' I; apply F; now right).
  destruct (py_in alx (tl (dict_keys al))); [|now apply IH].
  destruct (dict_del al alx) as [al'|] eqn:D; [|reflexivity].
  rewrite (IH al' x Fl).
  apply (dict_get_del_other al al' alx x D). apply F. now left.
Qed.

(** X11: [delete_alias] on a registered alias that is not a stored key
    succeeds.  Afterwards the alias does not resolve; the entry store
    and the expansion flag are as before; every alias that still
    resolves resolves to the key it had; and the aliases that are equal
    to no form derived from the deleted one under the current flag are
    all kept.  While expansion is disabled the deleted alias is the only
    one removed. *)
Theorem delete_alias_removes_the_alias
    (w : World) (al : dict PyVal PyVal) (a t : PyVal)
    (A : aliases_of (self w) = Some al)
    (W : dict_wf al = true)
    (R : dict_get al a = Some t)
    (NotKey : dict_contains (items (self w)) a = false) :
  exists w' al',
    delete_alias (Scalar a) w = (Ok tt, w') /\
    items (self w') = items (self w) /\
    CleverDict_expand w' = CleverDict_expand w /\
    aliases_of (self w') = Some al' /\
    get_key a w' = (Raise (KeyError (MsgKey a)), w') /\
    (forall x t', dict_get al' x = Some t' -> dict_get al x = Some t') /\
    (forall x,
       (forall alx, In alx (name_to_aliases (CleverDict_expand w) a) ->
                    py_eq alx x = false) ->
       dict_get al' x = dict_get al x) /\
    (CleverDict_expand w = false ->
     forall x, py_eq a x = false -> dict_get al' x = dict_get al x).
Proof.
  destruct (dict_del_some al a) as [al1 D].
  { unfold dict_contains. now rewrite R. }
  pose proof (dict_wf_del al al1 a W D) as W1.
  set (forms := name_to_aliases (CleverDict_expand w) a).
  assert (Keep : forall x, (forall alx, In alx forms -> py_eq alx x = false) ->
            dict_get (cascade forms al1) x = dict_get al x).
  { intros x F. rewrite (cascade_keeps_others forms al1 x F).
    apply (dict_get_del_other al al1 a x D). apply F.
    destruct (name_to_aliases_head (CleverDict_expand w) a) as [rest Hd].
    unfold forms. rewrite Hd. now left. }
  exists (rebuild w (items (self w)) (cascade forms al1)), (cascade forms al1).
  split; [|split; [reflexivity|split; [reflexivity|split;
    [apply aliases_of_rebuild|split; [|split; [|split; [exact Keep|]]]]]]].
  - rewrite <- (rebuild_id w al A) at 1.
    rewrite delete_alias_scalar_rebuild, NotKey, D.
    unfold dict_contains. now rewrite R.
  - rewrite get_key_rebuild.
    destruct (dict_get (cascade forms al1) a) as [t'|] eqn:G; [|reflexivity].
    apply (cascade_only_removes forms al1 a t' W1) in G.
    now rewrite (dict_get_del_same al al1 a a W D (py_eq_refl a)) in G.
  - intros x t' G. apply (cascade_only_removes forms al1 x t' W1) in G.
    destruct (key_eq a x) eqn:E.
    + now rewrite (dict_get_del_same al al1 a x W D E) in G.
    + now rewrite (dict_get_del_other al al1 a x D E) in G.
  - intros Off x E. apply Keep. unfold forms. rewrite Off.
    intros alx [<-|[]]. exact E.
Qed.

Lemma delete_alias_removes_the_alias_witness :
  let al := [(VStr "x", VStr "x"); (VInt 1, VStr "x"); (VStr "_1", VStr "x");
             (VStr "_True", VStr "x"); (VStr "y", VStr "x")] in
  let w := mkWorld true (mkCleverDict [(VStr "x", VInt 0)] [("_aliases", ADict al)]) in
  aliases_of (self w) = Some al /\ dict_wf al = true /\
  dict_get al (VInt 1) = Some (VStr "x") /\
  dict_contains (items (self w)) (VInt 1) = false /\
  exists w',
    delete_alias (Scalar (VInt 1)) w = (Ok tt, w') /\
    get_key (VInt 1) w' = (Raise (KeyError (MsgKey (VInt 1))), w') /\
    get_key (VStr "y") w' = (Ok (VStr "x"), w').
Proof.
  intros al w. repeat (split; [reflexivity|]).
  destruct (delete_alias_removes_the_alias w al (VInt 1) (VStr "x")
              eq_refl eq_refl eq_refl eq_refl)
    as (w' & al' & Run & _ & _ & A' & Gone & _ & Keep & _).
  exists w'. split; [exact Run|]. split; [exact Gone|].
  rewrite (get_key_indexed (VStr "y") w' al' A'), Keep; [reflexivity|].
  intros alx [<-|[<-|[<-|[]]]]; reflexivity.
Defined.

Lemma for_each_first_raises {A : Type} (body : A -> M unit) (a : A) (l : list A)
    (e : Exn) (w w1 : World) :
  for_each [a] body w = (Raise e, w1) ->
  for_each (a :: l) body w = (Raise e, w1).
Proof.
  cbn [for_each]. unfold bind.
  destruct (body a w) as [[[]|e'] w']; [discriminate|trivial].
Qed.

(** X12: [delete_alias] rejects a name that is not registered and a name
    that is a stored key, with the KeyError that tells which, and leaves
    the container as it was.  A list of aliases is processed in order:
    when its first alias is rejected nothing is deleted. *)
Theorem delete_alias_rejections
    (w : World) (al : dict PyVal PyVal) (a : PyVal)
    (A : aliases_of (self w) = Some al) :
  (dict_get al a = None ->
     delete_alias (Scalar a) w = (Raise (KeyError (MsgNotPresent a)), w)) /\
  (dict_contains al a = true -> dict_contains (items (self w)) a = true ->
     delete_alias (Scalar a) w = (Raise (KeyError (MsgKeyElement a)), w)) /\
  (forall l e, delete_alias (Scalar a) w = (Raise e, w) ->
     delete_alias (Several (a :: l)) w = (Raise e, w)).
Proof.
  pose proof (rebuild_id w al A) as Ew.
  split; [|split].
  - intros N. rewrite <- Ew at 1. rewrite delete_alias_scalar_rebuild.
    unfold dict_contains. rewrite N. cbn [negb]. now rewrite Ew.
  - intros Ca Ci. rewrite <- Ew at 1. rewrite delete_alias_scalar_rebuild.
    rewrite Ca, Ci. cbn [negb]. now rewrite Ew.
  - intros l e. unfold delete_alias. cbn [alias_list].
    apply for_each_first_raises.
Qed.

Lemma delete_alias_rejections_witness :
  let al := [(VStr "two words", VStr "two words");
             (VStr "two_words", VStr "two words")] in
  let w := mkWorld true (mkCleverDict [(VStr "two words", VInt 5)]
                           [("_aliases", ADict al)]) in
  aliases_of (self w) = Some al /\
  delete_alias (Scalar (VStr "two words")) w
    = (Raise (KeyError (MsgKeyElement (VStr "two words"))), w) /\
  delete_alias (Several [VStr "nobody"; VStr "two_words"]) w
    = (Raise (KeyError (MsgNotPresent (VStr "nobody"))), w).
Proof.
  intros al w. split; [reflexivity|].
  destruct (delete_alias_rejections w al (VStr "two words") eq_refl) as (_ & Key & _).
  destruct (delete_alias_rejections w al (VStr "nobody") eq_refl) as (Unknown & _ & Lst).
  split; [apply Key; reflexivity|].
  apply Lst. apply Unknown. reflexivity.
Defined.

(** ** Items and direct attributes are separate stores *)




(** ** Writing and reading back *)

(** X14: a name that is registered can always be assigned.  Whenever an
    assignment to [k] succeeds, on a container where [k] is registered if
    it is stored, reading [k] gives the assigned value; and reading any
    alias of another key gives what it gave before. *)
Theorem set_then_get
    (w : World) (al : dict PyVal PyVal) (k v : PyVal)
    (A : aliases_of (self w) = Some al)
    (Hk : dict_contains (items (self w)) k = true -> dict_get al k <> None) :
  (dict_get al k <> None -> exists w', __setitem__ k v w = (Ok tt, w')) /\
  (forall w', __setitem__ k v w = (Ok tt, w') ->
     __getitem__ k w' = (Ok v, w') /\
     forall x t, dict_get al x = Some t ->
       py_eq (match dict_get al k with Some key => key | None => k end) t = false ->
       fst (__getitem__ x w') = fst (__getitem__ x w)).
Proof.
  pose proof (rebuild_id w al A) as Ew.
  set (its := items (self w)) in *.
  assert (Run : __setitem__ k v w = __setattr__ k v (rebuild w its al))
    by (now rewrite Ew).
  rewrite Run, __setattr___rebuild. split.
  - destruct (dict_get al k) as [key|]; [eauto|]. intros Q. now contradiction Q.
  - intros w'. destruct (dict_get al k) as [key|] eqn:G.
    + intros [= <-]. split.
      * rewrite __getitem___rebuild, G. now rewrite dict_get_set_same by apply py_eq_refl.
      * intros x t Gx Ne. rewrite __getitem___rebuild, Gx.
        rewrite (__getitem___indexed x w al A), Gx. fold its.
        now rewrite dict_get_set_other by exact Ne.
    + destruct (dict_contains its k) eqn:C; cbn [negb].
      { now contradiction (Hk eq_refl). }
      destruct (register k (name_to_aliases (CleverDict_expand w) k) al)
        as [[[a t]|] al'] eqn:Reg; [discriminate|].
      intros [= <-].
      pose proof (register_origin k (name_to_aliases (CleverDict_expand w) k) al) as Or.
      pose proof (register_registers k (name_to_aliases (CleverDict_expand w) k) al) as Rr.
      pose proof (register_preserves k (name_to_aliases (CleverDict_expand w) k) al) as Rp.
      rewrite Reg in Or, Rr, Rp. cbn [fst snd] in Or, Rr, Rp.
      split.
      * rewrite __getitem___rebuild, (Rr eq_refl k).
        -- now rewrite dict_get_set_same by apply py_eq_refl.
        -- destruct (name_to_aliases_head (CleverDict_expand w) k) as [rest ->].
           now left.
      * intros x t Gx Ne. rewrite __getitem___rebuild.
        rewrite (__getitem___indexed x w al A), Gx. fold its.
        destruct (Rp x t Gx) as (t' & Gt' & Et'). rewrite Gt'.
        destruct (Or x t' Gt') as [->|Gt].
        -- congruence.
        -- rewrite Gx in Gt. injection Gt as <-.
           now rewrite dict_get_set_other by exact Ne.
Qed.

Lemma set_then_get_witness :
  let al := [(VInt 1, VInt 1); (VStr "b", VStr "b")] in
  let w := mkWorld true (mkCleverDict [(VInt 1, VStr "x"); (VStr "b", VInt 0)]
                           [("_aliases", ADict al)]) in
  aliases_of (self w) = Some al /\
  exists w',
    __setitem__ (VBool true) (VStr "y") w = (Ok tt, w') /\
    __getitem__ (VBool true) w' = (Ok (VStr "y"), w') /\
    fst (__getitem__ (VStr "b") w') = Ok (VInt 0).
Proof.
  intros al w. split; [reflexivity|].
  destruct (set_then_get w al (VBool true) (VStr "y") eq_refl) as [Can Back].
  - discriminate.
  - destruct Can as (w' & Run); [discriminate|].
    destruct (Back w' Run) as [Read Frame].
    exists w'. split; [exact Run|]. split; [exact Read|].
    rewrite (Frame (VStr "b") (VStr "b")); reflexivity.
Defined.

(** X15: an insertion that fails is not undone.  When [__setitem__] on an
    unregistered name [k] raises, [k] stays registered for itself but is
    not stored: it resolves, and reading it raises KeyError.  Repeating
    the same assignment then succeeds: it stores the value under [k] and
    registers no further alias. *)
Theorem failed_insertion_leaves_key_registered
    (w w1 : World) (al : dict PyVal PyVal) (k v : PyVal) (e : Exn)
    (A : aliases_of (self w) = Some al)
    (N : dict_get al k = None)
    (Fail : __setitem__ k v w = (Raise e, w1)) :
  items (self w1) = items (self w) /\
  get_key k w1 = (Ok k, w1) /\
  __getitem__ k w1 = (Raise (KeyError (MsgKey k)), w1) /\
  exists w2,
    __setitem__ k v w1 = (Ok tt, w2) /\
    aliases_of (self w2) = aliases_of (self w1) /\
    __getitem__ k w2 = (Ok v, w2).
Proof.
  pose proof (rebuild_id w al A) as Ew.
  set (its := items (self w)) in *.
  assert (Run : __setitem__ k v w = __setattr__ k v (rebuild w its al))
    by (now rewrite Ew).
  rewrite Run, __setattr___rebuild, N in Fail.
  destruct (dict_contains its k) eqn:C; cbn [negb] in Fail; [discriminate|].
  destruct (register k (name_to_aliases (CleverDict_expand w) k) al)
    as [[[a t]|] al1] eqn:Reg; [|discriminate].
  injection Fail as _ <-.
  assert (Gk : dict_get al1 k = Some k).
  { destruct (name_to_aliases_head (CleverDict_expand w) k) as [rest Hd].
    rewrite Hd in Reg. cbn [register] in Reg. rewrite N in Reg.
    pose proof (register_keeps_key k rest (dict_set al k k) k) as Kk.
    rewrite Reg in Kk. apply Kk. apply dict_get_set_same, py_eq_refl. }
  unfold dict_contains in C.
  split; [reflexivity|]. split; [|split].
  - now rewrite get_key_rebuild, Gk.
  - rewrite __getitem___rebuild, Gk. now destruct (dict_get its k).
  - exists (rebuild w (dict_set its k v) al1). split; [|split].
    + unfold __setitem__. now rewrite __setattr___rebuild, Gk.
    + now rewrite !aliases_of_rebuild.
    + rewrite __getitem___rebuild, Gk.
      now rewrite dict_get_set_same by apply py_eq_refl.
Qed.

Lemma failed_insertion_witness :
  let al := [(VInt 1, VInt 1); (VStr "_1", VInt 1); (VStr "_True", VInt 1)] in
  let w := mkWorld true (mkCleverDict [(VInt 1, VStr "x")] [("_aliases", ADict al)]) in
  aliases_of (self w) = Some al /\
  dict_get al (VInt (-1)) = None /\
  exists e w1 w2,
    __setitem__ (VInt (-1)) (VStr "y") w = (Raise e, w1) /\
    __setitem__ (VInt (-1)) (VStr "y") w1 = (Ok tt, w2) /\
    __getitem__ (VInt (-1)) w2 = (Ok (VStr "y"), w2) /\
    get_key (VStr "_1") w2 = (Ok (VInt 1), w2).
Proof.
  intros al w. split; [reflexivity|]. split; [reflexivity|].
  destruct (__setitem__ (VInt (-1)) (VStr "y") w) as [[[]|e] w1] eqn:Fail;
    [vm_compute in Fail; discriminate Fail|].
  destruct (failed_insertion_leaves_key_registered w w1 al (VInt (-1)) (VStr "y") e
              eq_refl eq_refl Fail) as (_ & _ & _ & w2 & Run2 & _ & Read).
  exists e, w1, w2. split; [reflexivity|]. split; [exact Run2|]. split; [exact Read|].
  vm_compute in Fail. injection Fail as _ <-.
  vm_compute in Run2. injection Run2 as <-. reflexivity.
Defined.

(** ** Adding an alias and deleting it again *)

Section DictAppend.
Context {K V : Type} `{PyKeyLaws K}.
Implicit Types (d : dict K V).

Lemma dict_set_fresh d k v :
  dict_get d k = None -> dict_set d k v = (d ++ [(k, v)])%list.
Proof.
  induction d as [|[k0 v0] d IH]; [reflexivity|]. cbn [dict_get dict_set app].
  destruct (key_eq k0 k); [discriminate|]. intros N. now rewrite IH.
Qed.

Lemma dict_get_app d d' x :
  dict_get (d ++ d')%list x =
  match dict_get d x with
  | Some v => Some v
  | None => dict_get d' x
  end.
Proof.
  induction d as [|[k0 v0] d IH]; [reflexivity|]. cbn [app dict_get].
  now destruct (key_eq k0 x).
Qed.
End DictAppend.

Lemma canon_apart (x y : PyVal) (rest : list PyVal) :
  NoDup (map canon (x :: rest)) -> In y rest -> py_eq x y = false.
Proof.
  cbn [map]. intros ND I. apply NoDup_cons_iff in ND as [NI _].
  destruct (py_eq x y) eqn:E; [|reflexivity].
  apply py_eq_canon in E. rewrite E in NI.
  contradiction NI. now apply in_map.
Qed.

Lemma fold_set_fresh (key : PyVal) (l : list PyVal) :
  forall al : dict PyVal PyVal,
  (forall x, In x l -> dict_get al x = None) ->
  NoDup (map canon l) ->
  fold_left (fun d a => dict_set d a key) l al
  = (al ++ map (fun x => (x, key)) l)%list.
Proof.
  induction l as [|x l IH]; intros al F ND; [now rewrite app_nil_r|].
  cbn [fold_left map]. rewrite (dict_set_fresh al x key (F x (or_introl eq_refl))).
  rewrite IH.
  - now rewrite <- app_assoc.
  - intros y I. rewrite dict_get_app, (F y (or_intror I)). cbn [dict_get].
    change (key_eq x y) with (py_eq x y). now rewrite (canon_apart x y l ND I).
  - cbn [map] in ND. now apply NoDup_cons_iff in ND.
Qed.

Lemma fold_set_wf (key : PyVal) (l : list PyVal) :
  forall al : dict PyVal PyVal,
  dict_wf al = true -> dict_wf (fold_left (fun d a => dict_set d a key) l al) = true.
Proof.
  induction l as [|x l IH]; intros al W; [exact W|].
  cbn [fold_left]. apply IH. now apply dict_wf_set.
Qed.

(** The cascade removes the forms that were appended to a non-empty
    index. *)
Lemma cascade_appended (key : PyVal) (al : dict PyVal PyVal) (rest : list PyVal) :
  al <> [] ->
  dict_wf (al ++ map (fun x => (x, key)) rest)%list = true ->
  cascade rest (al ++ map (fun x => (x, key)) rest)%list = al.
Proof.
  intros Ne. induction rest as [|r rs IH]; intros W; [now rewrite app_nil_r|].
  cbn [map cascade].
  assert (In0 : py_in r (tl (dict_keys (al ++ (r, key) :: map (fun x => (x, key)) rs)%list))
                = true).
  { destruct al as [|p al0]; [now contradiction Ne|].
    cbn [app dict_keys map tl]. change (map fst ?d) with (dict_keys d).
    rewrite py_in_keys. apply (dict_In_contains _ r key).
    apply in_or_app. right. now left. }
  cbn [map] in W. rewrite In0, (dict_del_middle al _ r key W).
  apply IH. exact (dict_wf_drop_middle al _ r key W).
Qed.

(** X16: adding an alias and deleting it again restores the container.
    Let [name] resolve to a key, and let the alias [a] be no stored key
    and none of its derived forms be registered.  Then, under either
    value of the expansion flag, [add_alias(name, a)] succeeds, [a]
    resolves to the key, and [delete_alias(a)] then succeeds and gives
    back the container as it was before the alias was added. *)
Theorem add_alias_then_delete_alias_restores
    (w : World) (al : dict PyVal PyVal) (name key a : PyVal)
    (A : aliases_of (self w) = Some al)
    (W : dict_wf al = true)
    (R : dict_get al name = Some key)
    (NotKey : dict_contains (items (self w)) a = false)
    (Fresh : forall x, In x (name_to_aliases (CleverDict_expand w) a) ->
                       dict_get al x = None) :
  exists w1,
    add_alias name (Scalar a) w = (Ok tt, w1) /\
    get_key a w1 = (Ok key, w1) /\
    delete_alias (Scalar a) w1 = (Ok tt, w).
Proof.
  pose proof (rebuild_id w al A) as Ew.
  set (its := items (self w)) in *.
  set (forms := name_to_aliases (CleverDict_expand w) a) in *.
  destruct (name_to_aliases_shape (CleverDict_expand w) a) as (rest & Hd & _ & _ & ND).
  fold forms in Hd.
  assert (F : forall x t, In x forms -> dict_get al x = Some t -> py_eq t key = true).
  { intros x t I G. rewrite (Fresh x I) in G. discriminate. }
  pose proof (register_succeeds key forms al F) as S.
  set (tail := map (fun x => (x, key)) rest).
  assert (Fo : snd (register key forms al) = (al ++ (a, key) :: tail)%list).
  { rewrite (register_fold key forms al F).
    rewrite (fold_set_fresh key forms al Fresh) by (now rewrite Hd).
    now rewrite Hd. }
  assert (W1 : dict_wf (snd (register key forms al)) = true).
  { rewrite (register_fold key forms al F). now apply fold_set_wf. }
  assert (Ne : al <> []) by (intros ->; discriminate R).
  exists (rebuild w its (snd (register key forms al))).
  split; [|split].
  - rewrite <- Ew at 1. rewrite add_alias_scalar_rebuild, R. fold forms.
    now rewrite S.
  - rewrite get_key_rebuild, Fo, dict_get_app, (Fresh a) by (rewrite Hd; now left).
    cbn [dict_get]. change (key_eq a a) with (py_eq a a). now rewrite py_eq_refl.
  - rewrite delete_alias_scalar_rebuild. fold forms. rewrite NotKey.
    rewrite Fo in W1 |- *.
    pose proof (dict_del_middle al tail a key W1) as D.
    assert (Ca : dict_contains (al ++ (a, key) :: tail)%list a = true).
    { apply (dict_In_contains _ a key). apply in_or_app. right. now left. }
    rewrite Ca, D. cbn [negb]. rewrite Hd. cbn [cascade].
    unfold tail in *. rewrite py_in_tl.
    + rewrite (cascade_appended key al rest Ne (dict_wf_drop_middle al tail a key W1)).
      now rewrite Ew.
    + rewrite py_in_keys. unfold dict_contains.
      now rewrite (dict_get_del_same _ _ a a W1 D (py_eq_refl a)).
Qed.

Lemma add_alias_then_delete_alias_witness :
  let al := [(VStr "x", VStr "x")] in
  let w := mkWorld true (mkCleverDict [(VStr "x", VInt 0)] [("_aliases", ADict al)]) in
  aliases_of (self w) = Some al /\ dict_wf al = true /\
  dict_get al (VStr "x") = Some (VStr "x") /\
  dict_contains (items (self w)) (VInt 1) = false /\
  exists w1,
    add_alias (VStr "x") (Scalar (VInt 1)) w = (Ok tt, w1) /\
    get_key (VStr "_True") w1 = (Ok (VStr "x"), w1) /\
    delete_alias (Scalar (VInt 1)) w1 = (Ok tt, w).
Proof.
  intros al w. repeat (split; [reflexivity|]).
  destruct (add_alias_then_delete_alias_restores w al (VStr "x") (VStr "x") (VInt 1)
              eq_refl eq_refl eq_refl eq_refl) as (w1 & Run & _ & Back).
  - intros x [<-|[<-|[<-|[]]]]; reflexivity.
  - exists w1. split; [exact Run|]. split; [|exact Back].
    vm_compute in Run. injection Run as <-. reflexivity.
Defined.

(** ** Invariants of the methods and of the constructor *)

(** X17: I1 is kept by [__setitem__] (on a container whose aliases are
    registered for stored keys), by [add_alias], by [__delitem__] and, while
    expansion is disabled, by [delete_alias], whether they return or
    raise. *)
Theorem item_methods_keep_I1
    (w : World) (al : dict PyVal PyVal)
    (A : aliases_of (self w) = Some al)
    (W : wf_container (self w) = true)
    (Inv : I1 (self w)) :
  ((forall x t, dict_get al x = Some t -> dict_contains (items (self w)) t = true) ->
   forall k v, I1 (self (snd (__setitem__ k v w)))) /\
  (forall name alias, I1 (self (snd (add_alias name alias w)))) /\
  (forall k, I1 (self (snd (__delitem__ k w)))) /\
  (CleverDict_expand w = false ->
   forall a, I1 (self (snd (delete_alias (Scalar a) w)))).
Proof.
  split; [|split; [|split]].
  - intros I2 k v. now apply (__setitem___keeps_I1 k v w al).
  - intros name alias. now apply (add_alias_keeps_I1 name alias w al).
  - intros k. now apply (__delitem___keeps_I1 k w al).
  - intros Off a. now apply (delete_alias_disabled_keeps_I1 a w al).
Qed.

Lemma item_methods_keep_I1_witness :
  let al := [(VStr "x", VStr "x"); (VStr "_1", VStr "_1");
             (VInt 1, VStr "_1"); (VStr "_True", VStr "_1")] in
  let w := mkWorld false
             (mkCleverDict [(VStr "x", VInt 0); (VStr "_1", VInt 9)]
                [("_aliases", ADict al)]) in
  aliases_of (self w) = Some al /\ wf_container (self w) = true /\
  I1 (self w) /\
  I1 (self (snd (delete_alias (Scalar (VInt 1)) w))) /\
  I1 (self (snd (__delitem__ (VInt 1) w))).
Proof.
  intros al w.
  assert (Inv : I1 (self w)) by (now apply I1b_spec).
  split; [reflexivity|]. split; [reflexivity|]. split; [exact Inv|].
  destruct (item_methods_keep_I1 w al eq_refl eq_refl Inv) as (_ & _ & Del & DelAlias).
  split; [exact (DelAlias eq_refl (VInt 1))|exact (Del (VInt 1))].
Defined.







(** ** Attribute access and item access *)

(** X19: reading and deleting through an attribute name behave as the
    item forms do, with AttributeError in the place of KeyError.  On a
    container whose alias index repeats no key, [__getitem__] either
    returns or raises KeyError, never changes the container, and
    [__getattr__] returns the same value or raises AttributeError with the
    same message.  A [__delitem__] that raises raises KeyError and leaves
    the container as it was, the alias used included, and [__delattr__]
    raises AttributeError with the same message; a [__delitem__] that
    returns leaves the state that [__delattr__] leaves. *)
Theorem attribute_access_mirrors_item_access
    (w : World) (al : dict PyVal PyVal)
    (A : aliases_of (self w) = Some al)
    (W : dict_wf al = true) :
  (forall name,
     (exists v, __getitem__ name w = (Ok v, w) /\
                __getattr__ name w = (Ok v, w)) \/
     (exists m, __getitem__ name w = (Raise (KeyError m), w) /\
                __getattr__ name w = (Raise (AttributeError m), w))) /\
  (forall name,
     (exists w', __delitem__ name w = (Ok tt, w') /\
                 __delattr__ name w = (Ok tt, w')) \/
     (exists m, __delitem__ name w = (Raise (KeyError m), w) /\
                __delattr__ name w = (Raise (AttributeError m), w))).
Proof.
  rewrite <- (rebuild_id w al A). set (its := items (self w)). split; intros name.
  - unfold __getattr__, key_error_as_attribute_error.
    rewrite __getitem___rebuild.
    destruct (dict_get al name) as [key|].
    + destruct (dict_get its key) as [v|].
      * left. now exists v.
      * right. now exists (MsgKey key).
    + right. now exists (MsgKey name).
  - unfold __delattr__, key_error_as_attribute_error.
    rewrite (__delitem___rebuild name w its al W).
    destruct (dict_get al name) as [key|].
    + destruct (dict_del its key) as [its'|].
      * left. eexists. split; reflexivity.
      * right. now exists (MsgKey key).
    + right. now exists (MsgKey name).
Qed.

Lemma attribute_access_mirrors_item_access_witness :
  let al := [(VStr "x", VStr "x"); (VStr "y", VStr "gone")] in
  let w := mkWorld true
             (mkCleverDict [(VStr "x", VInt 0)] [("_aliases", ADict al)]) in
  aliases_of (self w) = Some al /\ dict_wf al = true /\
  __getattr__ (VStr "x") w = (Ok (VInt 0), w) /\
  __delattr__ (VStr "y") w = (Raise (AttributeError (MsgKey (VStr "gone"))), w).
Proof.
  intros al w.
  destruct (attribute_access_mirrors_item_access w al eq_refl eq_refl) as (Get & Del).
  split; [reflexivity|]. split; [reflexivity|]. split.
  - destruct (Get (VStr "x")) as [(v & G & Ga)|(m & G & Ga)];
      vm_compute in G; [|discriminate G].
    injection G as <-. exact Ga.
  - destruct (Del (VStr "y")) as [(w' & D & Da)|(m & D & Da)];
      vm_compute in D; [discriminate D|].
    injection D as <-. exact Da.
Defined.
